(** * Collaborative code editor: the OT package, the hub fan-out and presence

    A shallow embedding of [backend/pkg/ot/operation.go],
    [backend/internal/editor/ot_manager.go], of the update path of
    [internal/editor/service.go], of the broadcast paths of
    [internal/editor/hub.go] / [internal/editor/client.go] and of the cursor
    manager of [internal/editor/cursor.go], with the properties the
    specification states about them and further properties of the code.

    Conventions.
    - A Go [int] is a [Z] in the range of a signed 64-bit word; every [+], [-]
      and [++] of the source is written with [GoInt.add] / [GoInt.sub], which
      wrap around.
    - A Go [string] is a [string] of bytes; [len] is its length as an [int].
    - A run-time panic (slice or index out of range, send on a closed channel)
      is the outcome [Panic]; an [error] return value is data. *)

From stdpp Require Import base gmap strings list.
From Stdlib Require Import ZArith Lia Bool Ascii.

Local Open Scope Z_scope.

(** ** Go integers *)

Module GoInt.

Definition min_int : Z := -9223372036854775808.
Definition max_int : Z := 9223372036854775807.
Definition modulus : Z := 18446744073709551616.

(** The value a two's complement 64-bit word holds for the integer [z]. *)
Definition wrap (z : Z) : Z := (z - min_int) mod modulus + min_int.

Definition add (a b : Z) : Z := wrap (a + b).
Definition sub (a b : Z) : Z := wrap (a - b).

Definition in_range (z : Z) : Prop := min_int <= z <= max_int.

Global Arguments wrap : simpl never.
Global Arguments add : simpl never.
Global Arguments sub : simpl never.

End GoInt.

(** ** Outcomes: a returned value or a run-time panic *)

Inductive outcome (A : Type) : Type :=
| Return (a : A)
| Panic.
Global Arguments Return {A} a.
Global Arguments Panic {A}.

Definition obind {A B : Type} (o : outcome A) (k : A -> outcome B) : outcome B :=
  match o with
  | Return a => k a
  | Panic => Panic
  end.

Notation "'let!' x ':=' c 'in' k" := (obind c (fun x => k))
  (at level 10, x name, c at level 100, k at level 200).

(** ** Go strings *)

Module GoString.

Definition len (s : string) : Z := Z.of_nat (String.length s).

(** [s[lo:hi]]: panics unless [0 <= lo <= hi <= len(s)]. *)
Definition slice (s : string) (lo hi : Z) : outcome string :=
  if (0 <=? lo) && (lo <=? hi) && (hi <=? len s)
  then Return (String.substring (Z.to_nat lo) (Z.to_nat (hi - lo)) s)
  else Panic.

(** [s[:hi]] *)
Definition slice_to (s : string) (hi : Z) : outcome string := slice s 0 hi.

(** [s[lo:]] *)
Definition slice_from (s : string) (lo : Z) : outcome string := slice s lo (len s).

(** [s[i]]: panics unless [0 <= i < len(s)]. *)
Definition index (s : string) (i : Z) : outcome ascii :=
  if (0 <=? i) && (i <? len s)
  then match String.get (Z.to_nat i) s with
       | Some c => Return c
       | None => Panic
       end
  else Panic.

(** A string that fits in memory: its length is an [int]. *)
Definition representable (s : string) : Prop := len s <= GoInt.max_int.

End GoString.

Import GoString.

(** ** Package [ot]: operations, transformation, application *)

Module ot.

(** [OpType]: the three constants of the [iota] block. *)
Inductive OpType : Type := OpInsert | OpDelete | OpRetain.

Record Operation : Type := mkOperation {
  op_Type : OpType;
  op_Position : Z;
  op_Content : string;   (* for insert *)
  op_Length : Z;         (* for delete/retain *)
  op_ClientID : string;
  op_Version : Z
}.

Definition with_Position (op : Operation) (p : Z) : Operation :=
  mkOperation (op_Type op) p (op_Content op) (op_Length op) (op_ClientID op) (op_Version op).

Definition with_Length (op : Operation) (l : Z) : Operation :=
  mkOperation (op_Type op) (op_Position op) (op_Content op) l (op_ClientID op) (op_Version op).

Definition with_Version (op : Operation) (v : Z) : Operation :=
  mkOperation (op_Type op) (op_Position op) (op_Content op) (op_Length op) (op_ClientID op) v.

Record Document : Type := mkDocument {
  Content : string;
  Version : Z;
  PendingOps : list Operation;
  AcknowledgedOps : list Operation
}.

Definition NewDocument : Document :=
  mkDocument "" 0 [] [].

(** [transformInsertInsert]: two concurrent insertions. *)
Definition transformInsertInsert (op1 op2 : Operation) : Operation * Operation :=
  if op_Position op1 <? op_Position op2 then
    (op1, with_Position op2 (GoInt.add (op_Position op2) (len (op_Content op1))))
  else if op_Position op1 >? op_Position op2 then
    (with_Position op1 (GoInt.add (op_Position op1) (len (op_Content op2))), op2)
  else if String.ltb (op_ClientID op1) (op_ClientID op2) then
    (op1, with_Position op2 (GoInt.add (op_Position op2) (len (op_Content op1))))
  else
    (with_Position op1 (GoInt.add (op_Position op1) (len (op_Content op2))), op2).

(** [transformInsertDelete]: insert against delete. *)
Definition transformInsertDelete (insert delete : Operation) : Operation * Operation :=
  if op_Position insert <=? op_Position delete then
    (insert, with_Position delete (GoInt.add (op_Position delete) (len (op_Content insert))))
  else if op_Position insert >=? GoInt.add (op_Position delete) (op_Length delete) then
    (with_Position insert (GoInt.sub (op_Position insert) (op_Length delete)), delete)
  else
    (with_Position insert (op_Position delete), delete).

(** [transformDeleteDelete]: two concurrent deletions. *)
Definition transformDeleteDelete (op1 op2 : Operation) : Operation * Operation :=
  if GoInt.add (op_Position op1) (op_Length op1) <=? op_Position op2 then
    (op1, with_Position op2 (GoInt.sub (op_Position op2) (op_Length op1)))
  else if GoInt.add (op_Position op2) (op_Length op2) <=? op_Position op1 then
    (with_Position op1 (GoInt.sub (op_Position op1) (op_Length op2)), op2)
  else if op_Position op1 <? op_Position op2 then
    let overlap := GoInt.sub (GoInt.add (op_Position op1) (op_Length op1)) (op_Position op2) in
    (with_Length op1 (GoInt.sub (op_Length op1) overlap),
     with_Length (with_Position op2 (op_Position op1)) (GoInt.sub (op_Length op2) overlap))
  else
    let overlap := GoInt.sub (GoInt.add (op_Position op2) (op_Length op2)) (op_Position op1) in
    (with_Length (with_Position op1 (op_Position op2)) (GoInt.sub (op_Length op1) overlap),
     with_Length op2 (GoInt.sub (op_Length op2) overlap)).

(** [Transform]: dispatch on the two types; a pair that involves a Retain
    falls through both switches and comes back unchanged. *)
Definition Transform (op1 op2 : Operation) : Operation * Operation :=
  match op_Type op1, op_Type op2 with
  | OpInsert, OpInsert => transformInsertInsert op1 op2
  | OpInsert, OpDelete => transformInsertDelete op1 op2
  | OpDelete, OpInsert =>
      let '(op2Prime, op1Prime) := transformInsertDelete op2 op1 in (op1Prime, op2Prime)
  | OpDelete, OpDelete => transformDeleteDelete op1 op2
  | _, _ => (op1, op2)
  end.

(** The two [fmt.Errorf] values of [Apply], with their arguments. *)
Inductive error : Type :=
| InvalidInsertPosition (position contentLength : Z)
| InvalidDeleteRange (position stop contentLength : Z).

(** [Apply]: the receiver is returned with the error value; when the error
    is not [None] the receiver is the one that was passed in. *)
Definition Apply (d : Document) (op : Operation) : outcome (Document * option error) :=
  let bump (content : string) : Document :=
    mkDocument content (GoInt.add (Version d) 1) (PendingOps d) (AcknowledgedOps d ++ [op]) in
  match op_Type op with
  | OpInsert =>
      if (op_Position op <? 0) || (op_Position op >? len (Content d)) then
        Return (d, Some (InvalidInsertPosition (op_Position op) (len (Content d))))
      else
        let! before := slice_to (Content d) (op_Position op) in
        let! after := slice_from (Content d) (op_Position op) in
        Return (bump (before +:+ op_Content op +:+ after), None)
  | OpDelete =>
      if (op_Position op <? 0) || (GoInt.add (op_Position op) (op_Length op) >? len (Content d)) then
        Return (d, Some (InvalidDeleteRange (op_Position op)
                           (GoInt.add (op_Position op) (op_Length op)) (len (Content d))))
      else
        let! before := slice_to (Content d) (op_Position op) in
        let! after := slice_from (Content d) (GoInt.add (op_Position op) (op_Length op)) in
        Return (bump (before +:+ after), None)
  | OpRetain => Return (bump (Content d), None)
  end.

(** [TransformAgainstHistory]: the loop ranges over [d.PendingOps]. *)
Definition TransformAgainstHistory (d : Document) (op : Operation) : Operation :=
  fold_left
    (fun transformed histOp =>
       if negb (String.eqb (op_ClientID histOp) (op_ClientID op))
       then fst (Transform transformed histOp)
       else transformed)
    (PendingOps d) op.

(** The two search loops of [GenerateOperation]:
    [for i := start; i < start + n; i++ { if old[i] != new[i] { return i } }],
    with [n] the number of iterations left. [None] is the loop running to
    its end. *)
Fixpoint firstDifference (n : nat) (i : Z) (oldContent newContent : string)
  : outcome (option Z) :=
  match n with
  | O => Return None
  | S n' =>
      let! a := index oldContent i in
      let! b := index newContent i in
      if Ascii.eqb a b
      then firstDifference n' (GoInt.add i 1) oldContent newContent
      else Return (Some i)
  end.

(** [GenerateOperation]: the [position] argument is not used by the source. *)
Definition GenerateOperation (oldContent newContent : string) (position : Z)
    (clientID : string) : outcome Operation :=
  let oldLen := len oldContent in
  let newLen := len newContent in
  if newLen >? oldLen then
    let insertLen := GoInt.sub newLen oldLen in
    let! found := firstDifference (Z.to_nat (Z.min oldLen newLen)) 0 oldContent newContent in
    match found with
    | Some i =>
        let! text := slice newContent i (GoInt.add i insertLen) in
        Return (mkOperation OpInsert i text 0 clientID 0)
    | None =>
        let! text := slice_from newContent oldLen in
        Return (mkOperation OpInsert oldLen text 0 clientID 0)
    end
  else if oldLen >? newLen then
    let deleteLen := GoInt.sub oldLen newLen in
    let! found := firstDifference (Z.to_nat newLen) 0 oldContent newContent in
    match found with
    | Some i => Return (mkOperation OpDelete i "" deleteLen clientID 0)
    | None => Return (mkOperation OpDelete newLen "" deleteLen clientID 0)
    end
  else
    Return (mkOperation OpRetain 0 "" 0 "" 0).

End ot.

(** ** Package [editor]: the OT manager of one document *)

Module editor.

Import ot.

Record OTManager : Type := mkOTManager {
  document : Document;
  pendingOps : list Operation;
  lastContent : string;
  documentID : string
}.

Definition NewOTManager (documentID : string) : OTManager :=
  mkOTManager NewDocument [] "" documentID.

(** [ProcessTextUpdate]: the manager after the call and the three results
    [(content, version, err)]. The mutex only serialises callers. *)
Definition ProcessTextUpdate (m : OTManager) (clientID newContent : string)
    (clientVersion : Z) : outcome (OTManager * (string * Z * option error)) :=
  let! op := GenerateOperation (lastContent m) newContent 0 clientID in
  let op := with_Version op clientVersion in
  let op := if clientVersion <? Version (document m)
            then TransformAgainstHistory (document m) op
            else op in
  let! applied := Apply (document m) op in
  match applied with
  | (d, Some err) =>
      Return (mkOTManager d (pendingOps m) (lastContent m) (documentID m),
              (Content d, Version d, Some err))
  | (d, None) =>
      Return (mkOTManager d (pendingOps m) (Content d) (documentID m),
              (Content d, Version d, None))
  end.

(** [GetDocument] of the manager. *)
Definition GetDocument (m : OTManager) : string * Z :=
  (Content (document m), Version (document m)).

(** *** The hub and its clients ([hub.go], [client.go]) *)

(** An [interface{}] value of the [Data] member. A [float64] is kept as the
    integer [int(f)] the handlers convert it to. *)
Inductive Value : Type :=
| VFloat (truncated : Z)
| VInt (z : Z)
| VString (s : string)
| VBool (b : bool)
| VSelection (sel : option (Z * Z))
| VOther.

Inductive Data : Type :=
| DNil
| DValue (v : Value)
| DMap (fields : list (string * Value)).

Record Message : Type := mkMessage {
  msg_Type : string;
  msg_Content : string;
  msg_Position : Z;
  msg_ClientID : string;
  msg_DocumentID : string;
  msg_Version : Z;
  msg_Data : Data
}.

(** A buffered channel of frames: [make(chan []byte, cap)]. *)
Record chan : Type := mkChan {
  chan_buf : list string;
  chan_cap : nat;
  chan_closed : bool
}.

(** [select { case ch <- m: ... default: ... }]: [Some] is the first case,
    [None] the default; sending on a closed channel panics. *)
Definition trySend (ch : chan) (m : string) : outcome (option chan) :=
  if chan_closed ch then Panic
  else if (length (chan_buf ch) <? chan_cap ch)%nat
       then Return (Some (mkChan (chan_buf ch ++ [m]) (chan_cap ch) false))
       else Return None.

(** [close(ch)]: closing a closed channel panics. *)
Definition close (ch : chan) : outcome chan :=
  if chan_closed ch then Panic
  else Return (mkChan (chan_buf ch) (chan_cap ch) true).

(** The fields of [Client] that the message path reads or writes. *)
Record Client : Type := mkClient {
  id : string;
  send : chan;
  client_documentID : string;
  username : string;
  color : string;
  cursorPosition : Z;
  selection : option (Z * Z)
}.

Definition with_send (c : Client) (ch : chan) : Client :=
  mkClient (id c) ch (client_documentID c) (username c) (color c)
           (cursorPosition c) (selection c).

(** A [*Client]. *)
Definition ptr : Type := positive.

(** [Hub]: the two maps (their values are always [true], so a map is the
    set of its keys), and the store the client pointers point into. *)
Record Hub : Type := mkHub {
  clients : gset ptr;
  documentClients : gmap string (gset ptr);
  heap : gmap ptr Client
}.

(** One iteration of the loop of [broadcastToDocument]. *)
Definition sendOrEvict (docID message excludeClientID : string) (h : Hub) (client : ptr)
  : outcome Hub :=
  match heap h !! client with
  | None => Panic
  | Some c =>
      if negb (String.eqb (id c) excludeClientID) then
        let! sent := trySend (send c) message in
        match sent with
        | Some ch =>
            Return (mkHub (clients h) (documentClients h)
                          (<[client := with_send c ch]> (heap h)))
        | None =>
            let! ch := close (send c) in
            Return (mkHub (clients h ∖ {[client]})
                          (alter (fun cs => cs ∖ {[client]}) docID (documentClients h))
                          (<[client := with_send c ch]> (heap h)))
        end
      else Return h
  end.

Fixpoint forEach {A S : Type} (body : S -> A -> outcome S) (xs : list A) (s : S)
  : outcome S :=
  match xs with
  | [] => Return s
  | x :: xs' => let! s' := body s x in forEach body xs' s'
  end.

(** [broadcastToDocument]: [order] is the order in which [range] visits the
    keys of [h.documentClients[docID]], some enumeration of that set. *)
Definition broadcastToDocument (h : Hub) (order : list ptr)
    (docID message excludeClientID : string) : outcome Hub :=
  match documentClients h !! docID with
  | None => Return h
  | Some _ => forEach (sendOrEvict docID message excludeClientID) order h
  end.

(** One iteration of the loop of [broadcastToAll]. *)
Definition sendOrDrop (message excludeClientID : string) (h : Hub) (client : ptr)
  : outcome Hub :=
  match heap h !! client with
  | None => Panic
  | Some c =>
      if negb (String.eqb (id c) excludeClientID) then
        let! sent := trySend (send c) message in
        match sent with
        | Some ch =>
            Return (mkHub (clients h) (documentClients h)
                          (<[client := with_send c ch]> (heap h)))
        | None =>
            let! ch := close (send c) in
            Return (mkHub (clients h ∖ {[client]}) (documentClients h)
                          (<[client := with_send c ch]> (heap h)))
        end
      else Return h
  end.

(** [broadcastToAll]: [order] enumerates [h.clients]. *)
Definition broadcastToAll (h : Hub) (order : list ptr)
    (message excludeClientID : string) : outcome Hub :=
  forEach (sendOrDrop message excludeClientID) order h.

Section Wire.

(** [encoding/json] is outside the repository: [json.Marshal] and
    [json.Unmarshal] on [Message] are parameters ([None] is an error). *)
Variable marshal : Message -> option string.
Variable unmarshal : string -> option Message.

(** [handleBroadcast]: route one frame taken from [h.broadcast]. *)
Definition handleBroadcast (h : Hub) (order : list ptr) (message : string)
  : outcome Hub :=
  match unmarshal message with
  | None => Return h
  | Some msg =>
      if String.eqb (msg_Type msg) "text_update"
         || String.eqb (msg_Type msg) "cursor_position"
         || String.eqb (msg_Type msg) "selection"
      then broadcastToDocument h order (msg_DocumentID msg) message (msg_ClientID msg)
      else if String.eqb (msg_Type msg) "broadcast_all"
      then broadcastToAll h order message (msg_ClientID msg)
      else if negb (String.eqb (msg_DocumentID msg) "")
      then broadcastToDocument h order (msg_DocumentID msg) message (msg_ClientID msg)
      else Return h
  end.

(** What a handler puts on a channel: a message for [c.hub.broadcast]
    or for the client's own [c.send]. Both are marshalled first, and a
    marshalling error sends nothing. *)
Inductive emission : Type :=
| ToHub (m : Message)
| ToSelf (m : Message).

(** The frames that reach [c.hub.broadcast]. *)
Definition hubFrames (es : list emission) : list string :=
  omap (fun e => match e with ToHub m => marshal m | ToSelf _ => None end) es.

(** What the service answers during one call of [processMessage]; the
    service itself is outside the message path. *)
Record ServiceAnswers : Type := mkServiceAnswers {
  service_present : bool;                  (* c.service != nil *)
  UpdateDocument_failed : bool;            (* err != nil *)
  UpdateDocument_content : string;         (* newContent *)
  UpdateDocument_version : Z;              (* newVersion *)
  GetDocument_failed : bool;
  state_content : string;
  state_version : Z;
  now_unix : Z
}.

Definition with_Data (m : Message) (d : Data) : Message :=
  mkMessage (msg_Type m) (msg_Content m) (msg_Position m) (msg_ClientID m)
            (msg_DocumentID m) (msg_Version m) d.

Definition stamp (c : Client) (m : Message) : Message :=
  mkMessage (msg_Type m) (msg_Content m) (msg_Position m) (id c)
            (client_documentID c) (msg_Version m) (msg_Data m).

(** The [Message] literal of [sendError]. *)
Definition errorMessage (errorMsg : string) : Message :=
  mkMessage "error" "" 0 "" "" 0 (DMap [("message", VString errorMsg)]).

Definition handleTypingStart (c : Client) (msg : Message) : list emission :=
  [ToHub (with_Data msg (DMap [("userId", VString (id c));
                               ("username", VString (username c));
                               ("color", VString (color c))]))].

Definition handleTypingStop (c : Client) (msg : Message) : list emission :=
  [ToHub (with_Data msg (DMap [("userId", VString (id c))]))].

(** [handleTextUpdate], first version of [client.go]. *)
Definition handleTextUpdate (a : ServiceAnswers) (c : Client) (msg : Message)
  : list emission :=
  if service_present a && UpdateDocument_failed a
  then [ToSelf (errorMessage "Failed to update document")]
  else [ToHub (stamp c msg)].

(** [handleCursorPosition], first version. *)
Definition handleCursorPosition (c : Client) (msg : Message) : Client * list emission :=
  (mkClient (id c) (send c) (client_documentID c) (username c) (color c)
            (msg_Position msg) (selection c),
   [ToHub (with_Data msg (DMap [("userId", VString (id c));
                                ("username", VString (username c));
                                ("color", VString (color c));
                                ("position", VInt (msg_Position msg))]))]).

(** [m[key].(float64)] followed by [int(...)]: the assertion panics on a
    missing key and on any other type. *)
Definition mustFloat (fields : list (string * Value)) (key : string) : outcome Z :=
  match List.find (fun kv => String.eqb (fst kv) key) fields with
  | Some (_, VFloat z) => Return z
  | _ => Panic
  end.

(** [handleSelection], first version. *)
Definition handleSelection (c : Client) (msg : Message)
  : outcome (Client * list emission) :=
  let! sel :=
    match msg_Data msg with
    | DMap selData =>
        let! start := mustFloat selData "start" in
        let! stop := mustFloat selData "end" in
        Return (Some (start, stop))
    | _ => Return (selection c)
    end in
  Return (mkClient (id c) (send c) (client_documentID c) (username c) (color c)
                   (cursorPosition c) sel,
          [ToHub (with_Data msg (DMap [("userId", VString (id c));
                                       ("username", VString (username c));
                                       ("color", VString (color c));
                                       ("selection", VSelection sel)]))]).

(** [sendDocumentState], as far as the frame it sends to the client. *)
Definition handleDocumentRequest (a : ServiceAnswers) (c : Client) : list emission :=
  if service_present a && negb (GetDocument_failed a)
  then [ToSelf (mkMessage "document_state" (state_content a) 0 ""
                          (client_documentID c) (state_version a) DNil)]
  else [].

Definition handleSaveDocument (a : ServiceAnswers) (c : Client) : list emission :=
  [ToSelf (mkMessage "save_confirmation" "" 0 "" "" 0
             (DMap [("documentId", VString (client_documentID c));
                    ("saved", VBool true);
                    ("timestamp", VInt (now_unix a))]))].

(** [processMessage], first version of [client.go]: the client after the
    call and what it emitted. *)
Definition processMessage (a : ServiceAnswers) (c : Client) (message : string)
  : outcome (Client * list emission) :=
  match unmarshal message with
  | None => Return (c, [ToSelf (errorMessage "Invalid message format")])
  | Some msg =>
      let msg := stamp c msg in
      let ty := msg_Type msg in
      if String.eqb ty "text_update" then Return (c, handleTextUpdate a c msg)
      else if String.eqb ty "cursor_position" then Return (handleCursorPosition c msg)
      else if String.eqb ty "selection" then handleSelection c msg
      else if String.eqb ty "request_document" then Return (c, handleDocumentRequest a c)
      else if String.eqb ty "save_document" then Return (c, handleSaveDocument a c)
      else if String.eqb ty "typing_start" then Return (c, handleTypingStart c msg)
      else if String.eqb ty "typing_stop" then Return (c, handleTypingStop c msg)
      else if String.eqb ty "ping" then Return (c, [])
      else Return (c, [ToSelf (errorMessage ("Unknown message type: " +:+ ty))])
  end.

(** [handleTextUpdate], second version of [client.go] (the one that goes
    through the OT manager). *)
Definition handleTextUpdate2 (a : ServiceAnswers) (c : Client) (msg : Message)
  : list emission :=
  if service_present a then
    if UpdateDocument_failed a
    then [ToSelf (errorMessage "Failed to update document")]
    else [ToHub (mkMessage (msg_Type msg) (UpdateDocument_content a) (msg_Position msg)
                           (id c) (client_documentID c) (UpdateDocument_version a)
                           (msg_Data msg))]
  else [ToHub (stamp c msg)].

(** [handleCursorPosition], second version. *)
Definition handleCursorPosition2 (a : ServiceAnswers) (c : Client) (msg : Message)
  : list emission :=
  let position :=
    match msg_Data msg with
    | DValue (VFloat pos) => pos
    | _ => if msg_Position msg >? 0 then msg_Position msg else 0
    end in
  if service_present a && GetDocument_failed a then []
  else [ToHub (mkMessage "cursor_position" "" 0 (id c) (client_documentID c) 0
                 (DMap [("clientId", VString (id c));
                        ("username", VString (username c));
                        ("color", VString (color c));
                        ("position", VInt position)]))].

Definition floatOr0 (fields : list (string * Value)) (key : string) : Z :=
  match List.find (fun kv => String.eqb (fst kv) key) fields with
  | Some (_, VFloat z) => z
  | _ => 0
  end.

(** [handleSelectionChange], second version. *)
Definition handleSelectionChange (c : Client) (msg : Message) : list emission :=
  let '(start, stop) :=
    match msg_Data msg with
    | DMap sel => (floatOr0 sel "start", floatOr0 sel "end")
    | _ => (0, 0)
    end in
  [ToHub (mkMessage "selection_change" "" 0 (id c) (client_documentID c) 0
            (DMap [("clientId", VString (id c));
                   ("username", VString (username c));
                   ("color", VString (color c));
                   ("start", VInt start);
                   ("end", VInt stop)]))].

(** [processMessage], second version of [client.go]. *)
Definition processMessage2 (a : ServiceAnswers) (c : Client) (message : string)
  : list emission :=
  match unmarshal message with
  | None => [ToSelf (errorMessage "Invalid message format")]
  | Some msg =>
      let msg := stamp c msg in
      let ty := msg_Type msg in
      if String.eqb ty "text_update" then handleTextUpdate2 a c msg
      else if String.eqb ty "request_document" then handleDocumentRequest a c
      else if String.eqb ty "save_document" then handleSaveDocument a c
      else if String.eqb ty "typing_start" then handleTypingStart c msg
      else if String.eqb ty "typing_stop" then handleTypingStop c msg
      else if String.eqb ty "cursor_position" then handleCursorPosition2 a c msg
      else if String.eqb ty "selection_change" then handleSelectionChange c msg
      else if String.eqb ty "ping" then []
      else [ToSelf (errorMessage ("Unknown message type: " +:+ ty))]
  end.

End Wire.

End editor.

(** ** The service's document record ([service.go]) *)

Module service.

(** [Document] of package [editor], without its timestamps, clients and
    cursor manager; [OTManager] is a pointer and may be nil. *)
Record Document : Type := mkDocument {
  ID : string;
  Content : string;
  Version : Z;
  OTManager : option editor.OTManager;
  dirty : bool
}.

(** [GetDocument], the branch that creates a document found neither in the
    cache nor in the database. *)
Definition newDocument (id : string) : Document :=
  mkDocument id "" 1 (Some (editor.NewOTManager id)) true.

(** [UpdateDocument], on the document [GetDocument] returned: the result of
    the OT manager when it reports no error, otherwise the fallback that
    takes the client's content and counts the version up. *)
Definition UpdateDocument (doc : Document) (content clientID : string)
    (clientVersion : Z) : outcome (Document * (string * Z * option ot.error)) :=
  let fallback (manager : option editor.OTManager) :=
    let newVersion := GoInt.add (Version doc) 1 in
    Return (mkDocument (ID doc) content newVersion manager true,
            (content, newVersion, None)) in
  match OTManager doc with
  | Some m =>
      let! r := editor.ProcessTextUpdate m clientID content clientVersion in
      match r with
      | (m', (newContent, newVersion, None)) =>
          Return (mkDocument (ID doc) newContent newVersion (Some m') true,
                  (newContent, newVersion, None))
      | (m', (_, _, Some _)) => fallback (Some m')
      end
  | None => fallback None
  end.

End service.

(** ** Vocabulary of the specification *)

Module Edit.

(** What a valid Insert and a valid Delete do to the bytes of a content. *)
Definition splice {A : Type} (p : nat) (t l : list A) : list A :=
  take p l ++ t ++ drop p l.

Definition cut {A : Type} (p n : nat) (l : list A) : list A :=
  take p l ++ drop (p + n) l.

End Edit.

Module OtSpec.

Import ot.

(** An operation that is valid on the content [S] (data model of the
    specification): an Insert inside [0, len(S)], a Delete of a range of [S]. *)
Definition valid_on (S : string) (op : Operation) : Prop :=
  match op_Type op with
  | OpInsert => 0 <= op_Position op <= len S
  | OpDelete => 0 <= op_Position op /\ 0 <= op_Length op
                /\ op_Position op + op_Length op <= len S
  | OpRetain => True
  end.

(** Applying a sequence of operations, stopping at the first error. *)
Fixpoint applyAll (d : Document) (ops : list Operation)
  : outcome (Document * option error) :=
  match ops with
  | [] => Return (d, None)
  | op :: rest =>
      let! r := Apply d op in
      match r with
      | (d', None) => applyAll d' rest
      | (d', Some e) => Return (d', Some e)
      end
  end.

(** The content after applying [ops] to [d], when all of them succeed. *)
Definition content_after (d : Document) (ops : list Operation) : option string :=
  match applyAll d ops with
  | Return (d', None) => Some (Content d')
  | _ => None
  end.

(** Convergence of a transformed pair on the base document [d]:
    [a] then [b'] and [b] then [a'] both succeed and give one content. *)
Definition converges (d : Document) (a b : Operation) : Prop :=
  exists S' : string,
    content_after d [a; snd (Transform a b)] = Some S'
    /\ content_after d [b; fst (Transform a b)] = Some S'.

(** What an operation that is valid on a content does to its bytes. *)
Definition denote (op : Operation) (l : list ascii) : list ascii :=
  match op_Type op with
  | OpInsert =>
      Edit.splice (Z.to_nat (op_Position op)) (String.list_ascii_of_string (op_Content op)) l
  | OpDelete => Edit.cut (Z.to_nat (op_Position op)) (Z.to_nat (op_Length op)) l
  | OpRetain => l
  end.

Definition stop (op : Operation) : Z := op_Position op + op_Length op.

(** Two deletes that overlap: neither ends at or before the start of the
    other. *)
Definition overlapping (a b : Operation) : Prop :=
  op_Type a = OpDelete /\ op_Type b = OpDelete
  /\ op_Position b < stop a /\ op_Position a < stop b.

(** The trailing delete ends before the leading one: the case the
    overlap computation of [transformDeleteDelete] does not cover. For
    equal positions the source takes its second argument as the leading
    delete. *)
Definition engulfed (a b : Operation) : Prop :=
  overlapping a b
  /\ (if op_Position a <? op_Position b then stop b < stop a else stop a < stop b).

(** The overlap of two deletes, as the specification computes it. *)
Definition overlap (a b : Operation) : Z :=
  Z.min (stop a) (stop b) - Z.max (op_Position a) (op_Position b).

(** The specification's wording of the overlapping case: only the
    trailing delete is trimmed and moved, the leading one is unchanged. *)
Definition trims_trailing_only (lead trail lead' trail' : Operation) : Prop :=
  op_Length lead' = op_Length lead
  /\ op_Length trail' = op_Length trail - overlap lead trail
  /\ op_Position trail' = op_Position lead.

(** What the source does in the overlapping case: both deletes are
    trimmed by the overlap, the trailing one is moved to the leading
    position. *)
Definition trim_leading (lead trail : Operation) : Operation :=
  with_Length lead (op_Length lead - overlap lead trail).

Definition trim_trailing (lead trail : Operation) : Operation :=
  with_Length (with_Position trail (op_Position lead))
              (op_Length trail - overlap lead trail).

(** Swapping the arguments of [Transform] swaps its results. *)
Definition mirrored (a b : Operation) : Prop :=
  Transform b a = (snd (Transform a b), fst (Transform a b)).

(** An operation whose position, length and end are those of a range of
    some Go string. *)
Definition well_formed (op : Operation) : Prop :=
  GoInt.in_range (op_Position op) /\ 0 <= op_Length op
  /\ GoInt.in_range (op_Position op + op_Length op).

(** The operations of a history that are not Retain, counted. *)
Definition non_retain_count (ops : list Operation) : Z :=
  Z.of_nat (length (List.filter (fun op => match op_Type op with
                                      | OpRetain => false
                                      | _ => true
                                      end) ops)).

(** An operation that the guards of [Apply] turn down on the content [S];
    the end of a delete is the sum as Go computes it. *)
Definition rejected (S : string) (op : Operation) : Prop :=
  match op_Type op with
  | OpInsert => op_Position op < 0 \/ len S < op_Position op
  | OpDelete => op_Position op < 0
                \/ len S < GoInt.add (op_Position op) (op_Length op)
  | OpRetain => False
  end.

(** [T] is [S] with one contiguous run of bytes inserted. *)
Definition one_insertion (S T : string) : Prop :=
  exists A X B : string, S = A +:+ B /\ T = A +:+ X +:+ B.

(** [T] is [S] with one contiguous run of bytes deleted. *)
Definition one_deletion (S T : string) : Prop := one_insertion T S.

(** The operation [GenerateOperation] returns: it is found at [j], the two
    contents agree before [j], and they differ at [j] unless [j] is the end
    of the shorter one. *)
Definition generated (old new clientID : string) (op : Operation) : Prop :=
  exists j : Z,
    0 <= j <= Z.min (len old) (len new)
    /\ take (Z.to_nat j) (String.list_ascii_of_string old) = take (Z.to_nat j) (String.list_ascii_of_string new)
    /\ (j < Z.min (len old) (len new) ->
        String.list_ascii_of_string old !! Z.to_nat j <> String.list_ascii_of_string new !! Z.to_nat j)
    /\ ((len old < len new
         /\ op = mkOperation OpInsert j
                  (String.string_of_list_ascii (take (Z.to_nat (len new - len old))
                              (drop (Z.to_nat j) (String.list_ascii_of_string new))))
                  0 clientID 0)
        \/ (len new < len old
            /\ op = mkOperation OpDelete j "" (len old - len new) clientID 0)).

(** An insert strictly inside the range of a delete. *)
Definition inside (i dl : Operation) : Prop :=
  op_Type i = OpInsert /\ op_Type dl = OpDelete
  /\ op_Position dl < op_Position i < stop dl.

End OtSpec.

Module EditorSpec.

Import ot editor.

(** The operation [ProcessTextUpdate] hands to [Apply]. *)
Definition submitted (m : OTManager) (clientID newContent : string) (clientVersion : Z)
  : outcome Operation :=
  let! op := GenerateOperation (lastContent m) newContent 0 clientID in
  let op := with_Version op clientVersion in
  Return (if clientVersion <? Version (document m)
          then TransformAgainstHistory (document m) op
          else op).

(** The rebase the specification describes: [op] is transformed, in
    application order, against every entry of the history of applied
    operations whose originator differs from [clientID], keeping the first
    component each time. *)
Definition rebased_on_history (clientID : string) (history : list Operation)
    (op : Operation) : Operation :=
  fold_left
    (fun transformed histOp =>
       if negb (String.eqb (op_ClientID histOp) clientID)
       then fst (Transform transformed histOp)
       else transformed)
    history op.

(** The managers that calls of [ProcessTextUpdate] lead to from
    [NewOTManager]. *)
Inductive reachable : OTManager -> Prop :=
| reachable_new (documentID : string) : reachable (NewOTManager documentID)
| reachable_update (m m' : OTManager) (clientID newContent : string)
    (clientVersion : Z) (results : string * Z * option error) :
    reachable m ->
    ProcessTextUpdate m clientID newContent clientVersion = Return (m', results) ->
    reachable m'.

(** A run of updates, each a [(clientID, newContent, clientVersion)],
    stopping at the first panic. *)
Fixpoint updates (m : OTManager) (calls : list (string * string * Z)) : outcome OTManager :=
  match calls with
  | [] => Return m
  | (clientID, newContent, clientVersion) :: rest =>
      let! r := ProcessTextUpdate m clientID newContent clientVersion in
      updates (fst r) rest
  end.

End EditorSpec.

Module HubSpec.

Import editor.

(** A hub step leaves alone every client whose identifier is [who]: its
    queue holds what it held and is not closed. *)
Definition spares (who : string) (h h' : Hub) : Prop :=
  forall (q : ptr) (c : Client),
    heap h !! q = Some c -> id c = who -> heap h' !! q = Some c.

(** What a client may put on a channel while it handles one message: a
    message for the hub carries the client's own identifier and document, a
    message for the client itself is an error, a document state or a save
    confirmation. *)
Definition own (c : Client) (e : emission) : Prop :=
  match e with
  | ToHub m => msg_ClientID m = id c /\ msg_DocumentID m = client_documentID c
  | ToSelf m => msg_Type m = "error" \/ msg_Type m = "document_state"
                \/ msg_Type m = "save_confirmation"
  end.

(** A stand-in for the JSON codec, for examples: a frame is the [clientId]
    of its message, and it is read back as a text update for document d. *)
Definition example_marshal (m : Message) : option string := Some (msg_ClientID m).

Definition example_unmarshal (frame : string) : option Message :=
  Some (mkMessage "text_update" "" 0 frame "d" 0 DNil).

(** Two clients on document d, with empty queues of capacity 256. *)
Definition example_client (ident : string) : Client :=
  mkClient ident (mkChan [] 256 false) "d" "User" "#FF6B6B" 0 None.

Definition example_hub : Hub :=
  mkHub ({[1%positive]} ∪ {[2%positive]})
        {["d" := {[1%positive]} ∪ {[2%positive]}]}
        (<[1%positive := example_client "aaaaaaaa"]>
           (<[2%positive := example_client "bbbbbbbb"]> ∅)).

End HubSpec.

(** ** The cursor manager ([cursor.go]) *)

Module cursor.

(** An instant of [time.Time], in nanoseconds. *)
Definition Time : Type := Z.

(** [t.Sub(u)]: the difference as a [time.Duration], which stops at the
    largest and the smallest value an int64 holds. *)
Definition Sub (t u : Time) : Z :=
  Z.max GoInt.min_int (Z.min GoInt.max_int (t - u)).

Record CursorPosition : Type := mkCursorPosition {
  cp_ClientID : string;
  cp_Username : string;
  cp_Position : Z;
  cp_Color : string;
  cp_UpdatedAt : Time
}.

Record SelectionRange : Type := mkSelectionRange {
  sr_ClientID : string;
  sr_Username : string;
  sr_Start : Z;
  sr_End : Z;
  sr_Color : string
}.

(** The two maps hold pointers to records that are never written to after
    they are stored, so the maps hold the records. *)
Record CursorManager : Type := mkCursorManager {
  cursors : gmap string CursorPosition;
  selections : gmap string SelectionRange
}.

Definition NewCursorManager : CursorManager := mkCursorManager ∅ ∅.

(** [UpdateCursorPosition]; [now] is what [time.Now()] returns. *)
Definition UpdateCursorPosition (cm : CursorManager) (now : Time)
    (clientID username color : string) (position : Z) : CursorManager :=
  mkCursorManager
    (<[clientID := mkCursorPosition clientID username position color now]> (cursors cm))
    (selections cm).

Definition UpdateSelection (cm : CursorManager) (clientID username color : string)
    (start stop : Z) : CursorManager :=
  if start =? stop then
    mkCursorManager (cursors cm) (delete clientID (selections cm))
  else
    mkCursorManager (cursors cm)
      (<[clientID := mkSelectionRange clientID username start stop color]> (selections cm)).

Definition RemoveClient (cm : CursorManager) (clientID : string) : CursorManager :=
  mkCursorManager (delete clientID (cursors cm)) (delete clientID (selections cm)).

(** [GetAllCursors]: [order] is the order in which [range] visits the keys
    of [cm.cursors]. *)
Definition GetAllCursors (cm : CursorManager) (order : list string)
    (excludeClientID : string) : list CursorPosition :=
  omap (fun id => if negb (String.eqb id excludeClientID)
                  then cursors cm !! id else None) order.

(** [GetAllSelections]: [order] enumerates the keys of [cm.selections]. *)
Definition GetAllSelections (cm : CursorManager) (order : list string)
    (excludeClientID : string) : list SelectionRange :=
  omap (fun id => if negb (String.eqb id excludeClientID)
                  then selections cm !! id else None) order.

(** One iteration of the loop of [CleanupStale]; a key whose entry is gone
    is not visited. *)
Definition cleanupOne (now : Time) (timeout : Z) (cm : CursorManager) (id : string)
  : CursorManager :=
  match cursors cm !! id with
  | Some c =>
      if Sub now (cp_UpdatedAt c) >? timeout
      then mkCursorManager (delete id (cursors cm)) (delete id (selections cm))
      else cm
  | None => cm
  end.

(** [CleanupStale]: [order] enumerates the keys of [cm.cursors]. *)
Definition CleanupStale (cm : CursorManager) (now : Time) (order : list string)
    (timeout : Z) : CursorManager :=
  fold_left (cleanupOne now timeout) order cm.

End cursor.

Module CursorSpec.

Import cursor.

(** Every entry is stored under the identifier it carries. *)
Definition keyed (cm : CursorManager) : Prop :=
  (forall id c, cursors cm !! id = Some c -> cp_ClientID c = id)
  /\ (forall id r, selections cm !! id = Some r -> sr_ClientID r = id).

(** The cursor of [id] has not been updated for longer than [timeout]. *)
Definition stale (cm : CursorManager) (now : Time) (timeout : Z) (id : string) : Prop :=
  exists c, cursors cm !! id = Some c /\ timeout < Sub now (cp_UpdatedAt c).

(** [stale], as the loop of [CleanupStale] tests it. *)
Definition expired (cm : CursorManager) (now : Time) (timeout : Z) (id : string) : bool :=
  match cursors cm !! id with
  | Some c => Sub now (cp_UpdatedAt c) >? timeout
  | None => false
  end.

(** A manager that the methods have built from [NewCursorManager]. *)
Inductive built : CursorManager -> Prop :=
| built_new : built NewCursorManager
| built_cursor cm now id username color position :
    built cm -> built (UpdateCursorPosition cm now id username color position)
| built_selection cm id username color start stop :
    built cm -> built (UpdateSelection cm id username color start stop)
| built_remove cm id : built cm -> built (RemoveClient cm id)
| built_cleanup cm now order timeout :
    built cm -> built (CleanupStale cm now order timeout).

(** [order] visits every key of the map [m], as [range] does. *)
Definition visits {A : Type} (order : list string) (m : gmap string A) : Prop :=
  forall id, is_Some (m !! id) -> id ∈ order.

(** Three clients: ann moved at instant 100 and holds a selection, bob
    moved at instant 950, and a selection of cy, who has no cursor. *)
Definition example_manager : CursorManager :=
  UpdateSelection
    (UpdateCursorPosition
       (UpdateSelection
          (UpdateCursorPosition NewCursorManager 100 "ann" "Ann" "red" 4)
          "ann" "Ann" "red" 4 9)
       950 "bob" "Bob" "blue" 7)
    "cy" "Cy" "green" 1 2.

End CursorSpec.

Module FanOut.

Import editor.

(** The pointer leads to a client whose channel is open. *)
Definition ready (h : Hub) (p : ptr) : Prop :=
  exists c : Client, heap h !! p = Some c /\ chan_closed (send c) = false.

(** The queue of the client has room for one more frame. *)
Definition has_room (c : Client) : Prop :=
  (length (chan_buf (send c)) < chan_cap (send c))%nat.

(** The client with [message] at the end of its queue. *)
Definition received (c : Client) (message : string) : Client :=
  with_send c (mkChan (chan_buf (send c) ++ [message]) (chan_cap (send c)) false).

(** The client with its channel closed. *)
Definition shut (c : Client) : Client :=
  with_send c (mkChan (chan_buf (send c)) (chan_cap (send c)) true).

(** A client on document d whose queue of capacity 1 is full, and a hub
    with this client next to one with room. *)
Definition slow_client (ident : string) : Client :=
  mkClient ident (mkChan ["old"] 1 false) "d" "User" "#4ECDC4" 0 None.

Definition crowded_hub : Hub :=
  mkHub ({[1%positive]} ∪ {[2%positive]})
        {["d" := {[1%positive]} ∪ {[2%positive]}]}
        (<[1%positive := HubSpec.example_client "aaaaaaaa"]>
           (<[2%positive := slow_client "bbbbbbbb"]> ∅)).

End FanOut.

(** * Properties *)

(** ** Facts about Go integers *)

Module GoIntFacts.

Import GoInt.

Lemma wrap_in_range z : in_range (wrap z).
Proof.
  unfold in_range, wrap, min_int, max_int, modulus.
  pose proof (Z.mod_pos_bound (z - -9223372036854775808) 18446744073709551616).
  lia.
Qed.

Lemma wrap_small z : in_range z -> wrap z = z.
Proof.
  unfold in_range, wrap, min_int, max_int, modulus. intros H.
  rewrite Z.mod_small; lia.
Qed.

Lemma add_small a b : in_range (a + b) -> add a b = a + b.
Proof. apply wrap_small. Qed.

Lemma sub_small a b : in_range (a - b) -> sub a b = a - b.
Proof. apply wrap_small. Qed.

End GoIntFacts.

(** ** Facts about Go strings, through their lists of bytes *)

Module GoStringFacts.

Abbreviation to_list := String.list_ascii_of_string.
Abbreviation of_list := String.string_of_list_ascii.

Lemma to_list_of_list l : to_list (of_list l) = l.
Proof. apply String.list_ascii_of_string_of_list_ascii. Qed.

Lemma of_list_to_list s : of_list (to_list s) = s.
Proof. apply String.string_of_list_ascii_of_string. Qed.

Lemma to_list_inj s t : to_list s = to_list t -> s = t.
Proof.
  intros H. rewrite <- (of_list_to_list s), <- (of_list_to_list t). now rewrite H.
Qed.

Lemma to_list_app s t : to_list (s +:+ t) = to_list s ++ to_list t.
Proof.
  induction s as [|c s IH]; [reflexivity|].
  change (String c s +:+ t) with (String c (s +:+ t)). simpl. now rewrite IH.
Qed.

Lemma of_list_app l k : of_list (l ++ k) = of_list l +:+ of_list k.
Proof. apply to_list_inj. now rewrite to_list_app, !to_list_of_list. Qed.

Lemma to_list_length s : length (to_list s) = String.length s.
Proof. induction s as [|c s IH]; simpl; [reflexivity | now rewrite IH]. Qed.

Lemma len_to_list s : len s = Z.of_nat (length (to_list s)).
Proof. unfold len. now rewrite to_list_length. Qed.

Lemma len_of_list l : len (of_list l) = Z.of_nat (length l).
Proof. now rewrite len_to_list, to_list_of_list. Qed.

Lemma len_nonneg s : 0 <= len s.
Proof. unfold len. lia. Qed.

Lemma len_app s t : len (s +:+ t) = len s + len t.
Proof. rewrite !len_to_list, to_list_app, length_app. lia. Qed.

Lemma to_list_substring n m s :
  to_list (String.substring n m s) = take m (drop n (to_list s)).
Proof.
  revert n m. induction s as [|c s IH]; intros [|n] [|m]; simpl;
    rewrite ?IH, ?drop_0; reflexivity.
Qed.

Lemma get_to_list n s : String.get n s = to_list s !! n.
Proof.
  revert n. induction s as [|c s IH]; intros [|n]; simpl; try reflexivity.
  apply IH.
Qed.

(** The three slicing forms, when they are in range. *)
Lemma slice_Return s lo hi :
  0 <= lo <= hi -> hi <= len s ->
  slice s lo hi = Return (of_list (take (Z.to_nat (hi - lo)) (drop (Z.to_nat lo) (to_list s)))).
Proof.
  intros H1 H2. unfold slice.
  replace ((0 <=? lo) && (lo <=? hi) && (hi <=? len s)) with true
    by (symmetry; rewrite !andb_true_iff, !Z.leb_le; lia).
  f_equal. apply to_list_inj. now rewrite to_list_substring, to_list_of_list.
Qed.

Lemma slice_to_Return s hi :
  0 <= hi <= len s ->
  slice_to s hi = Return (of_list (take (Z.to_nat hi) (to_list s))).
Proof.
  intros H. unfold slice_to. rewrite slice_Return by lia.
  now rewrite Z.sub_0_r, drop_0.
Qed.

Lemma slice_from_Return s lo :
  0 <= lo <= len s ->
  slice_from s lo = Return (of_list (drop (Z.to_nat lo) (to_list s))).
Proof.
  intros H. unfold slice_from. rewrite slice_Return by lia.
  f_equal. f_equal. apply take_ge. rewrite length_drop, len_to_list. lia.
Qed.

Lemma slice_Panic s lo hi :
  lo < 0 \/ hi < lo \/ len s < hi -> slice s lo hi = Panic.
Proof.
  intros H. unfold slice.
  replace ((0 <=? lo) && (lo <=? hi) && (hi <=? len s)) with false; [reflexivity|].
  symmetry. rewrite !andb_false_iff, !Z.leb_gt. lia.
Qed.

Lemma index_Return s i c :
  0 <= i -> to_list s !! Z.to_nat i = Some c -> index s i = Return c.
Proof.
  intros Hi Hc. unfold index.
  assert (i < len s).
  { apply lookup_lt_Some in Hc. rewrite len_to_list. lia. }
  replace ((0 <=? i) && (i <? len s)) with true
    by (symmetry; rewrite andb_true_iff, Z.leb_le, Z.ltb_lt; lia).
  now rewrite get_to_list, Hc.
Qed.

End GoStringFacts.

(** ** Splicing and cutting lists *)

Module EditFacts.

Import Edit.

Lemma cut_at {A : Type} (l : list A) (p : nat) :
  (p <= length l)%nat -> exists l1 l2, l = l1 ++ l2 /\ length l1 = p.
Proof.
  intros H. exists (take p l), (drop p l).
  split; [now rewrite take_drop | rewrite length_take; lia].
Qed.

Lemma take_none {A : Type} (l : list A) (n : nat) : n = 0%nat -> take n l = [].
Proof. now intros ->. Qed.

Lemma drop_none {A : Type} (l : list A) (n : nat) : n = 0%nat -> drop n l = l.
Proof. now intros ->. Qed.

Ltac plain x :=
  lazymatch x with
  | context [take _ _] => fail
  | context [drop _ _] => fail
  | _ => idtac
  end.

(** Once a list is written as the append of its segments, every prefix and
    suffix taken at a segment boundary is a sub-chain of the segments. *)
Ltac segment_step :=
  match goal with
  | |- context [ take ?n (?x ++ ?y) ] => plain x; plain y; rewrite (take_app x y n)
  | |- context [ drop ?n (?x ++ ?y) ] => plain x; plain y; rewrite (drop_app x y n)
  | |- context [ length (?x ++ ?y) ] => rewrite (length_app x y)
  | |- context [ length (@nil ?T) ] => change (length (@nil T)) with 0%nat
  | |- context [ take ?n [] ] => rewrite (take_nil n)
  | |- context [ drop ?n [] ] => rewrite (drop_nil n)
  | |- context [ take ?n ?x ] =>
      is_var x; first [ rewrite (take_ge x n) by lia | rewrite (take_none x n) by lia ]
  | |- context [ drop ?n ?x ] =>
      is_var x; first [ rewrite (drop_ge x n) by lia | rewrite (drop_none x n) by lia ]
  | |- context [ [] ++ ?x ] => rewrite (app_nil_l x)
  | |- context [ ?x ++ [] ] => rewrite (app_nil_r x)
  | |- context [ (?x ++ ?y) ++ ?z ] => rewrite <- (app_assoc x y z)
  end.

Ltac segments := unfold splice, cut; repeat segment_step; try reflexivity.

Section Lists.

Context {A : Type}.
Implicit Types (l t : list A) (p q n : nat).

Lemma length_splice p t l : length (splice p t l) = (length l + length t)%nat.
Proof. unfold splice. rewrite !length_app, length_take, length_drop. lia. Qed.

Lemma length_cut p n l :
  (p + n <= length l)%nat -> length (cut p n l) = (length l - n)%nat.
Proof. unfold cut. rewrite !length_app, length_take, length_drop. lia. Qed.

(** Insert against insert: the later position shifts by the earlier text. *)
Lemma splice_splice p1 p2 t1 t2 l :
  (p1 <= p2 <= length l)%nat ->
  splice (p2 + length t1) t2 (splice p1 t1 l) = splice p1 t1 (splice p2 t2 l).
Proof.
  intros H.
  destruct (cut_at l p1) as (a & l' & -> & <-); [lia|].
  rewrite length_app in H.
  destruct (cut_at l' (p2 - length a)) as (b & c & -> & Hb); [lia|].
  replace p2 with (length a + length b)%nat by lia. clear.
  segments.
Qed.

(** Two inserts at one position: the outer text lands first. *)
Lemma splice_splice_same p t1 t2 l :
  (p <= length l)%nat ->
  splice p t1 (splice p t2 l) = take p l ++ t1 ++ t2 ++ drop p l.
Proof.
  intros H.
  destruct (cut_at l p) as (a & b & -> & <-); [lia|]. clear.
  segments.
Qed.

(** Insert at or before the start of a delete. *)
Lemma cut_splice_before p q n t l :
  (p <= q)%nat -> (q + n <= length l)%nat ->
  cut (q + length t) n (splice p t l) = splice p t (cut q n l).
Proof.
  intros H1 H2.
  destruct (cut_at l p) as (a & l' & -> & <-); [lia|].
  rewrite length_app in H2.
  destruct (cut_at l' (q - length a)) as (b & l'' & -> & Hb); [lia|].
  rewrite length_app in H2.
  destruct (cut_at l'' n) as (c & d & -> & Hc); [lia|].
  replace q with (length a + length b)%nat by lia. subst n. clear.
  segments.
Qed.

(** Insert at or after the end of a delete. *)
Lemma cut_splice_after p q n t l :
  (q + n <= p <= length l)%nat ->
  cut q n (splice p t l) = splice (p - n) t (cut q n l).
Proof.
  intros H.
  destruct (cut_at l q) as (a & l' & -> & <-); [lia|].
  rewrite length_app in H.
  destruct (cut_at l' n) as (b & l'' & -> & <-); [lia|].
  rewrite length_app in H.
  destruct (cut_at l'' (p - length a - length b)) as (c & d & -> & Hc); [lia|].
  replace p with (length a + length b + length c)%nat by lia. clear.
  segments.
Qed.

(** Two disjoint deletes. *)
Lemma cut_cut_disjoint q1 n1 q2 n2 l :
  (q1 + n1 <= q2)%nat -> (q2 + n2 <= length l)%nat ->
  cut (q2 - n1) n2 (cut q1 n1 l) = cut q1 n1 (cut q2 n2 l).
Proof.
  intros H1 H2.
  destruct (cut_at l q1) as (a & l' & -> & <-); [lia|].
  rewrite length_app in H2.
  destruct (cut_at l' n1) as (b & l'' & -> & <-); [lia|].
  rewrite length_app in H2.
  destruct (cut_at l'' (q2 - length a - length b)) as (c & l3 & -> & Hc); [lia|].
  rewrite length_app in H2.
  destruct (cut_at l3 n2) as (d & e & -> & <-); [lia|].
  replace q2 with (length a + length b + length c)%nat by lia. clear.
  segments.
Qed.

(** Two overlapping deletes, the second one starting no earlier and
    ending no earlier than the first: each is left with what the other
    did not remove. *)
Lemma cut_cut_overlap q1 n1 q2 n2 l :
  (q1 <= q2 <= q1 + n1)%nat -> (q1 + n1 <= q2 + n2 <= length l)%nat ->
  cut q1 (n2 - (q1 + n1 - q2)) (cut q1 n1 l)
  = cut q1 (n1 - (q1 + n1 - q2)) (cut q2 n2 l).
Proof.
  intros H1 H2.
  destruct (cut_at l q1) as (a & l' & -> & <-); [lia|].
  rewrite length_app in H2.
  destruct (cut_at l' (q2 - length a)) as (b & l'' & -> & Hb); [lia|].
  rewrite length_app in H2.
  destruct (cut_at l'' (length a + n1 - q2)) as (c & l3 & -> & Hc); [lia|].
  rewrite length_app in H2.
  destruct (cut_at l3 (q2 + n2 - (length a + n1))) as (d & e & -> & Hd); [lia|].
  replace q2 with (length a + length b)%nat in * by lia.
  replace n1 with (length b + length c)%nat in * by lia.
  replace n2 with (length c + length d)%nat in * by lia.
  clear. segments.
Qed.

End Lists.

End EditFacts.

(** ** The [ot] package *)

Module OtFacts.

Import GoInt GoIntFacts GoStringFacts Edit EditFacts ot OtSpec.

Ltac int_range := unfold in_range, representable, min_int, max_int in *; lia.

(** *** Comparison of originators *)

Lemma ltb_asym s t : String.ltb s t = true -> String.ltb t s = false.
Proof.
  unfold String.ltb. rewrite (String.compare_antisym t s).
  destruct (String.compare s t); simpl; congruence.
Qed.

Lemma ltb_total s t : s <> t -> String.ltb s t = true \/ String.ltb t s = true.
Proof.
  intros Hne. unfold String.ltb. rewrite (String.compare_antisym t s).
  destruct (String.compare s t) eqn:E; simpl; auto.
  apply String.compare_eq_iff in E. contradiction.
Qed.

Lemma ltb_irrefl s : String.ltb s s = false.
Proof.
  destruct (String.ltb s s) eqn:E; [|reflexivity].
  pose proof (ltb_asym _ _ E). congruence.
Qed.

(** *** [Apply] on a valid operation *)

Lemma Apply_valid d op :
  valid_on (Content d) op -> representable (Content d) ->
  Apply d op =
    Return (mkDocument (of_list (denote op (to_list (Content d))))
              (add (Version d) 1) (PendingOps d) (AcknowledgedOps d ++ [op]),
            None).
Proof.
  unfold valid_on, denote, Apply. intros Hv Hr.
  destruct (op_Type op).
  - replace ((op_Position op <? 0) || (op_Position op >? len (Content d))) with false
      by (symmetry; rewrite orb_false_iff, Z.ltb_ge, Z.gtb_ltb, Z.ltb_ge; lia).
    rewrite slice_to_Return, slice_from_Return by lia. simpl.
    unfold splice. now rewrite !of_list_app, of_list_to_list.
  - rewrite add_small by int_range.
    replace ((op_Position op <? 0)
             || (op_Position op + op_Length op >? len (Content d))) with false
      by (symmetry; rewrite orb_false_iff, Z.ltb_ge, Z.gtb_ltb, Z.ltb_ge; lia).
    rewrite slice_to_Return, slice_from_Return by lia. simpl.
    unfold cut. rewrite of_list_app.
    now replace (Z.to_nat (op_Position op + op_Length op))
      with (Z.to_nat (op_Position op) + Z.to_nat (op_Length op))%nat by lia.
  - now rewrite of_list_to_list.
Qed.

Lemma len_denote S op :
  valid_on S op ->
  len (of_list (denote op (to_list S))) =
    match op_Type op with
    | OpInsert => len S + len (op_Content op)
    | OpDelete => len S - op_Length op
    | OpRetain => len S
    end.
Proof.
  unfold valid_on, denote. intros Hv. rewrite len_of_list.
  destruct (op_Type op).
  - rewrite length_splice, !len_to_list. lia.
  - rewrite len_to_list in *. rewrite length_cut; lia.
  - now rewrite len_to_list.
Qed.

(** Two operations in a row. *)
Lemma content_after_pair d a b :
  valid_on (Content d) a -> representable (Content d) ->
  valid_on (of_list (denote a (to_list (Content d)))) b ->
  representable (of_list (denote a (to_list (Content d)))) ->
  content_after d [a; b] = Some (of_list (denote b (denote a (to_list (Content d))))).
Proof.
  intros Ha Hr Hb Hr'. unfold content_after, applyAll.
  rewrite (Apply_valid d a Ha Hr). cbn [obind].
  rewrite Apply_valid by assumption. cbn [obind Content].
  now rewrite to_list_of_list.
Qed.

(** The three ways [Apply] can return. *)
Lemma Apply_cases d op r :
  Apply d op = Return r ->
  (exists e, r = (d, Some e) /\ rejected (Content d) op)
  \/ (exists content,
        r = (mkDocument content (add (Version d) 1) (PendingOps d)
               (AcknowledgedOps d ++ [op]), None)
        /\ (op_Type op = OpRetain -> content = Content d)).
Proof.
  unfold Apply, rejected. intros H.
  destruct (op_Type op).
  - destruct ((op_Position op <? 0) || (op_Position op >? len (Content d))) eqn:G.
    + left. injection H as <-. eexists. split; [reflexivity|].
      apply orb_true_iff in G. rewrite Z.ltb_lt, Z.gtb_ltb, Z.ltb_lt in G. exact G.
    + right. destruct (slice_to _ _); [|discriminate].
      destruct (slice_from _ _); [|discriminate].
      injection H as <-. eexists. split; [reflexivity|discriminate].
  - destruct ((op_Position op <? 0)
              || (add (op_Position op) (op_Length op) >? len (Content d))) eqn:G.
    + left. injection H as <-. eexists. split; [reflexivity|].
      apply orb_true_iff in G. rewrite Z.ltb_lt, Z.gtb_ltb, Z.ltb_lt in G. exact G.
    + right. destruct (slice_to _ _); [|discriminate].
      destruct (slice_from _ _); [|discriminate].
      injection H as <-. eexists. split; [reflexivity|discriminate].
  - right. injection H as <-. eexists. split; reflexivity.
Qed.

Lemma Apply_rejected d op :
  rejected (Content d) op -> exists e, Apply d op = Return (d, Some e).
Proof.
  unfold Apply, rejected. intros H.
  destruct (op_Type op).
  - replace ((op_Position op <? 0) || (op_Position op >? len (Content d))) with true
      by (symmetry; rewrite orb_true_iff, Z.ltb_lt, Z.gtb_ltb, Z.ltb_lt; exact H).
    eexists. reflexivity.
  - replace ((op_Position op <? 0)
             || (add (op_Position op) (op_Length op) >? len (Content d))) with true
      by (symmetry; rewrite orb_true_iff, Z.ltb_lt, Z.gtb_ltb, Z.ltb_lt; exact H).
    eexists. reflexivity.
  - contradiction.
Qed.

(** *** The version counter *)

Lemma applyAll_Version ops : forall d d',
  applyAll d ops = Return (d', None) ->
  0 <= Version d -> Version d + Z.of_nat (length ops) <= max_int ->
  Version d' = Version d + Z.of_nat (length ops)
  /\ AcknowledgedOps d' = AcknowledgedOps d ++ ops.
Proof.
  induction ops as [|op ops IH]; intros d d' H Hv Hb.
  - injection H as <-. rewrite app_nil_r. split; [simpl; lia | reflexivity].
  - cbn [applyAll] in H. destruct (Apply d op) as [r|] eqn:E; [|discriminate].
    cbn [obind] in H.
    destruct (Apply_cases _ _ _ E) as [(e & -> & _)|(c & -> & _)]; [discriminate|].
    cbn [length] in Hb.
    assert (Hadd : add (Version d) 1 = Version d + 1) by (apply add_small; int_range).
    apply IH in H; cbn [Version AcknowledgedOps] in *; rewrite ?Hadd in *; try lia.
    destruct H as [-> ->]. rewrite <- app_assoc. split; [|reflexivity].
    cbn [length]. lia.
Qed.

(** C3, as stated, fails: one Retain applied to a fresh document leaves
    no non-Retain operation in the history and the version at 1. *)
Lemma Apply_Retain_bumps_Version :
  exists d : Document,
    applyAll NewDocument [mkOperation OpRetain 0 "" 0 "" 0] = Return (d, None)
    /\ Version d <> non_retain_count (AcknowledgedOps d).
Proof. eexists. split; [reflexivity|]. vm_compute. discriminate. Qed.

(** C3, amended. The version counts every operation that was applied,
    Retain included: a fresh document has version 0; after a sequence of
    successful applies the version is the number of operations and the
    history is that sequence; a Retain leaves the content as it is and still
    moves the version by one. *)
Theorem Version_counts_every_applied_operation (ops : list Operation) (d : Document) :
  applyAll NewDocument ops = Return (d, None) ->
  Z.of_nat (length ops) <= max_int ->
  Version NewDocument = 0
  /\ Version d = Z.of_nat (length ops)
  /\ AcknowledgedOps d = ops
  /\ forall op : Operation,
       op_Type op = OpRetain ->
       Apply d op =
         Return (mkDocument (Content d) (add (Version d) 1) (PendingOps d)
                   (AcknowledgedOps d ++ [op]), None).
Proof.
  intros H Hb. split; [reflexivity|].
  apply applyAll_Version in H; cbn [Version NewDocument] in *; try lia.
  destruct H as [Hv Hh]. split; [lia|]. split; [exact Hh|].
  intros op Hop. unfold Apply. now rewrite Hop.
Qed.

Lemma Version_counts_every_applied_operation_witness :
  let ops := [mkOperation OpInsert 0 "hi" 0 "a" 0; mkOperation OpRetain 0 "" 0 "" 1] in
  let d := mkDocument "hi" 2 [] ops in
  applyAll NewDocument ops = Return (d, None)
  /\ Version d = Z.of_nat (length ops)
  /\ AcknowledgedOps d = ops.
Proof.
  cbv zeta. split; [reflexivity|].
  destruct (Version_counts_every_applied_operation
              [mkOperation OpInsert 0 "hi" 0 "a" 0; mkOperation OpRetain 0 "" 0 "" 1]
              (mkDocument "hi" 2 []
                 [mkOperation OpInsert 0 "hi" 0 "a" 0; mkOperation OpRetain 0 "" 0 "" 1]))
    as (_ & Hv & Hh & _).
  - reflexivity.
  - unfold max_int. simpl. lia.
  - split; assumption.
Defined.

(** *** Insert against insert *)

(** The insert that comes first keeps its position, the other one moves
    right by the length of the first text; both orders give the content
    with the first text before the second. *)
Lemma insert_insert_shift d x y :
  op_Type x = OpInsert -> op_Type y = OpInsert ->
  valid_on (Content d) x -> valid_on (Content d) y ->
  op_Position x <= op_Position y ->
  len (Content d) + len (op_Content x) + len (op_Content y) <= max_int ->
  let y' := with_Position y (add (op_Position y) (len (op_Content x))) in
  let S' := of_list (splice (Z.to_nat (op_Position x)) (to_list (op_Content x))
                       (splice (Z.to_nat (op_Position y)) (to_list (op_Content y))
                          (to_list (Content d)))) in
  content_after d [x; y'] = Some S' /\ content_after d [y; x] = Some S'.
Proof.
  intros Hx Hy Vx Vy Hle Hb y' S'.
  pose proof (len_to_list (Content d)). pose proof (len_to_list (op_Content x)).
  pose proof (len_to_list (op_Content y)).
  pose proof (len_denote _ _ Vx) as Lx. pose proof (len_denote _ _ Vy) as Ly.
  rewrite Hx in Lx. rewrite Hy in Ly.
  assert (Vx' := Vx). assert (Vy' := Vy).
  unfold valid_on in Vx', Vy'. rewrite Hx in Vx'. rewrite Hy in Vy'.
  assert (Ey : op_Position y' = op_Position y + len (op_Content x)).
  { unfold y'. simpl. apply add_small. int_range. }
  split.
  - rewrite content_after_pair; try assumption.
    + f_equal. subst S'. f_equal. unfold denote at 1. cbn [y' op_Type with_Position].
      rewrite Hy. fold y'. rewrite Ey. unfold denote. rewrite Hx.
      cbn [y' op_Content with_Position].
      etransitivity; [|apply splice_splice; lia].
      f_equal. lia.
    + int_range.
    + unfold valid_on. cbn [y' op_Type with_Position]. rewrite Hy. fold y'.
      rewrite Ey, Lx. lia.
    + unfold representable. rewrite Lx. lia.
  - rewrite content_after_pair; try assumption.
    + f_equal. subst S'. unfold denote. now rewrite Hx, Hy.
    + int_range.
    + unfold valid_on. rewrite Hx, Ly. lia.
    + unfold representable. rewrite Ly. lia.
Qed.

(** *** Insert against delete *)

(** Close [l1 = l2] with an instance [H : L = R] of a list identity, up to
    the arithmetic of the positions and in either direction. *)
Ltac by_identity H :=
  lazymatch type of H with
  | ?L = ?R =>
      first [ transitivity L; [f_equal; lia | transitivity R; [exact H | f_equal; lia]]
            | transitivity R; [f_equal; lia
                              | transitivity L; [symmetry; exact H | f_equal; lia]] ]
  end.

Ltac fields :=
  cbn [op_Type op_Position op_Length op_Content op_ClientID op_Version
       with_Position with_Length with_Version fst snd] in *.

(** An insert that does not fall strictly inside the deleted range. *)
Lemma insert_delete_outside d i dl :
  op_Type i = OpInsert -> op_Type dl = OpDelete ->
  valid_on (Content d) i -> valid_on (Content d) dl ->
  len (Content d) + len (op_Content i) <= max_int ->
  op_Position i <= op_Position dl \/ stop dl <= op_Position i ->
  exists S' : string,
    content_after d [i; snd (transformInsertDelete i dl)] = Some S'
    /\ content_after d [dl; fst (transformInsertDelete i dl)] = Some S'.
Proof.
  intros Hi Hd Vi Vd Hb Hout.
  pose proof (len_to_list (Content d)). pose proof (len_to_list (op_Content i)).
  pose proof (len_denote _ _ Vi) as Li. pose proof (len_denote _ _ Vd) as Ld.
  rewrite Hi in Li. rewrite Hd in Ld.
  assert (Vi' := Vi). assert (Vd' := Vd).
  unfold valid_on in Vi', Vd'. rewrite Hi in Vi'. rewrite Hd in Vd'.
  unfold stop in Hout. unfold transformInsertDelete.
  destruct (Z.leb_spec (op_Position i) (op_Position dl)) as [Hle|Hgt].
  - (* the delete moves right *)
    rewrite add_small by int_range. fields.
    eexists. split.
    + rewrite content_after_pair; try assumption; [reflexivity|int_range| |].
      * unfold valid_on. fields. rewrite Hd. fields. rewrite Li. lia.
      * unfold representable. rewrite Li. lia.
    + rewrite content_after_pair; try assumption.
      * f_equal. f_equal. unfold denote. fields. rewrite Hi, Hd.
        by_identity (cut_splice_before (Z.to_nat (op_Position i))
                       (Z.to_nat (op_Position dl)) (Z.to_nat (op_Length dl))
                       (to_list (op_Content i)) (to_list (Content d))
                       ltac:(lia) ltac:(lia)).
      * int_range.
      * unfold valid_on. rewrite Hi, Ld. lia.
      * unfold representable. rewrite Ld. lia.
  - (* the insert moves left *)
    rewrite add_small by int_range.
    replace (op_Position i >=? op_Position dl + op_Length dl) with true
      by (symmetry; rewrite Z.geb_leb, Z.leb_le; lia).
    rewrite sub_small by int_range. fields.
    eexists. split.
    + rewrite content_after_pair; try assumption; [reflexivity|int_range| |].
      * unfold valid_on. rewrite Hd, Li. lia.
      * unfold representable. rewrite Li. lia.
    + rewrite content_after_pair; try assumption.
      * f_equal. f_equal. unfold denote. fields. rewrite Hi, Hd.
        by_identity (cut_splice_after (Z.to_nat (op_Position i))
                       (Z.to_nat (op_Position dl)) (Z.to_nat (op_Length dl))
                       (to_list (op_Content i)) (to_list (Content d)) ltac:(lia)).
      * int_range.
      * unfold valid_on. fields. rewrite Hi. fields. rewrite Ld. lia.
      * unfold representable. rewrite Ld. lia.
Qed.

(** *** Delete against delete *)

Lemma delete_delete_converges d a b :
  op_Type a = OpDelete -> op_Type b = OpDelete ->
  valid_on (Content d) a -> valid_on (Content d) b ->
  representable (Content d) ->
  ~ engulfed a b ->
  exists S' : string,
    content_after d [a; snd (transformDeleteDelete a b)] = Some S'
    /\ content_after d [b; fst (transformDeleteDelete a b)] = Some S'.
Proof.
  intros Ha Hb Va Vb Hr Hne.
  pose proof (len_to_list (Content d)).
  pose proof (len_denote _ _ Va) as La. pose proof (len_denote _ _ Vb) as Lb.
  rewrite Ha in La. rewrite Hb in Lb.
  assert (Va' := Va). assert (Vb' := Vb).
  unfold valid_on in Va', Vb'. rewrite Ha in Va'. rewrite Hb in Vb'.
  unfold transformDeleteDelete.
  assert (Ea : add (op_Position a) (op_Length a) = op_Position a + op_Length a)
    by (apply add_small; int_range).
  assert (Eb : add (op_Position b) (op_Length b) = op_Position b + op_Length b)
    by (apply add_small; int_range).
  rewrite !Ea, !Eb.
  destruct (Z.leb_spec (op_Position a + op_Length a) (op_Position b)) as [H1|H1];
    [|destruct (Z.leb_spec (op_Position b + op_Length b) (op_Position a)) as [H2|H2];
      [|destruct (Z.ltb_spec (op_Position a) (op_Position b)) as [H3|H3]]].
  - (* a lies before b *)
    rewrite sub_small by int_range. fields.
    eexists. split.
    + rewrite content_after_pair; try assumption; [reflexivity| |].
      * unfold valid_on. fields. rewrite Hb. fields. rewrite La. lia.
      * unfold representable. rewrite La. int_range.
    + rewrite content_after_pair; try assumption.
      * f_equal. f_equal. unfold denote. fields. rewrite Ha, Hb.
        by_identity (cut_cut_disjoint (Z.to_nat (op_Position a))
                       (Z.to_nat (op_Length a)) (Z.to_nat (op_Position b))
                       (Z.to_nat (op_Length b)) (to_list (Content d))
                       ltac:(lia) ltac:(lia)).
      * unfold valid_on. rewrite Ha, Lb. lia.
      * unfold representable. rewrite Lb. int_range.
  - (* b lies before a *)
    rewrite sub_small by int_range. fields.
    eexists. split.
    + rewrite content_after_pair; try assumption; [reflexivity| |].
      * unfold valid_on. rewrite Hb, La. lia.
      * unfold representable. rewrite La. int_range.
    + rewrite content_after_pair; try assumption.
      * f_equal. f_equal. unfold denote. fields. rewrite Ha, Hb.
        by_identity (cut_cut_disjoint (Z.to_nat (op_Position b))
                       (Z.to_nat (op_Length b)) (Z.to_nat (op_Position a))
                       (Z.to_nat (op_Length a)) (to_list (Content d))
                       ltac:(lia) ltac:(lia)).
      * unfold valid_on. fields. rewrite Ha. fields. rewrite Lb. lia.
      * unfold representable. rewrite Lb. int_range.
  - (* overlap, a leading *)
    assert (Hends : op_Position a + op_Length a <= op_Position b + op_Length b).
    { destruct (Z.le_gt_cases (op_Position a + op_Length a)
                  (op_Position b + op_Length b)); [assumption|].
      exfalso. apply Hne. unfold engulfed, overlapping, stop.
      repeat split; try assumption; try lia.
      replace (op_Position a <? op_Position b) with true
        by (symmetry; apply Z.ltb_lt; lia). lia. }
    rewrite !sub_small by (rewrite ?sub_small by int_range; int_range). fields.
    eexists. split.
    + rewrite content_after_pair; try assumption; [reflexivity| |].
      * unfold valid_on. fields. rewrite Hb. fields. rewrite La. lia.
      * unfold representable. rewrite La. int_range.
    + rewrite content_after_pair; try assumption.
      * f_equal. f_equal. unfold denote. fields. rewrite Ha, Hb. fields.
        by_identity (cut_cut_overlap (Z.to_nat (op_Position a))
                       (Z.to_nat (op_Length a)) (Z.to_nat (op_Position b))
                       (Z.to_nat (op_Length b)) (to_list (Content d))
                       ltac:(lia) ltac:(lia)).
      * unfold valid_on. fields. rewrite Ha. fields. rewrite Lb. lia.
      * unfold representable. rewrite Lb. int_range.
  - (* overlap, b leading *)
    assert (Hends : op_Position b + op_Length b <= op_Position a + op_Length a).
    { destruct (Z.le_gt_cases (op_Position b + op_Length b)
                  (op_Position a + op_Length a)); [assumption|].
      exfalso. apply Hne. unfold engulfed, overlapping, stop.
      repeat split; try assumption; try lia.
      replace (op_Position a <? op_Position b) with false
        by (symmetry; apply Z.ltb_ge; lia). lia. }
    rewrite !sub_small by (rewrite ?sub_small by int_range; int_range). fields.
    eexists. split.
    + rewrite content_after_pair; try assumption; [reflexivity| |].
      * unfold valid_on. fields. rewrite Hb. fields. rewrite La. lia.
      * unfold representable. rewrite La. int_range.
    + rewrite content_after_pair; try assumption.
      * f_equal. f_equal. unfold denote. fields. rewrite Ha, Hb. fields.
        by_identity (cut_cut_overlap (Z.to_nat (op_Position b))
                       (Z.to_nat (op_Length b)) (Z.to_nat (op_Position a))
                       (Z.to_nat (op_Length a)) (to_list (Content d))
                       ltac:(lia) ltac:(lia)).
      * unfold valid_on. fields. rewrite Ha. fields. rewrite Lb. lia.
      * unfold representable. rewrite Lb. int_range.
Qed.

(** *** Convergence away from the two uncovered cases *)

Lemma retain_commutes d a b :
  op_Type a = OpRetain \/ op_Type b = OpRetain ->
  valid_on (Content d) a -> valid_on (Content d) b ->
  len (Content d) + len (op_Content a) + len (op_Content b) <= max_int ->
  exists S' : string,
    content_after d [a; b] = Some S' /\ content_after d [b; a] = Some S'.
Proof.
  intros HR Va Vb Hb.
  pose proof (len_nonneg (Content d)). pose proof (len_nonneg (op_Content a)).
  pose proof (len_nonneg (op_Content b)).
  pose proof (len_denote _ _ Va) as La. pose proof (len_denote _ _ Vb) as Lb.
  assert (Va' := Va). assert (Vb' := Vb). unfold valid_on in Va', Vb'.
  eexists. split.
  - rewrite content_after_pair; try assumption; [reflexivity|int_range| |].
    + unfold valid_on. rewrite La.
      destruct HR as [HR|HR]; rewrite HR in *;
        destruct (op_Type a), (op_Type b); try discriminate; try exact I; lia.
    + unfold representable. rewrite La.
      destruct HR as [HR|HR]; rewrite HR in *;
        destruct (op_Type a), (op_Type b); try discriminate; int_range.
  - rewrite content_after_pair; try assumption.
    + f_equal. f_equal. unfold denote.
      destruct HR as [HR|HR]; rewrite HR; destruct (op_Type a), (op_Type b);
        try discriminate; reflexivity.
    + int_range.
    + unfold valid_on. rewrite Lb.
      destruct HR as [HR|HR]; rewrite HR in *;
        destruct (op_Type a), (op_Type b); try discriminate; try exact I; lia.
    + unfold representable. rewrite Lb.
      destruct HR as [HR|HR]; rewrite HR in *;
        destruct (op_Type a), (op_Type b); try discriminate; int_range.
Qed.

(** [Transform] makes the two orders of application converge for every
    pair of valid operations except an insert strictly inside a deleted
    range and a delete that ends inside the other one. *)
Lemma Transform_converges d a b :
  valid_on (Content d) a -> valid_on (Content d) b ->
  len (Content d) + len (op_Content a) + len (op_Content b) <= max_int ->
  ~ inside a b -> ~ inside b a -> ~ engulfed a b ->
  converges d a b.
Proof.
  intros Va Vb Hb Hab Hba Hne. unfold converges, Transform.
  pose proof (len_nonneg (Content d)). pose proof (len_nonneg (op_Content a)).
  pose proof (len_nonneg (op_Content b)).
  destruct (op_Type a) eqn:Ta, (op_Type b) eqn:Tb;
    try (apply retain_commutes; auto; fail).
  - (* insert, insert *)
    assert (Va' := Va). assert (Vb' := Vb). unfold valid_on in Va', Vb'.
    rewrite Ta in Va'. rewrite Tb in Vb'.
    unfold transformInsertInsert.
    destruct (Z.ltb_spec (op_Position a) (op_Position b)) as [Hlt|Hge].
    + destruct (insert_insert_shift d a b Ta Tb Va Vb ltac:(lia) Hb) as [E1 E2].
      eexists. split; [exact E1 | exact E2].
    + rewrite Z.gtb_ltb.
      destruct (Z.ltb_spec (op_Position b) (op_Position a)) as [Hlt|Hle].
      * destruct (insert_insert_shift d b a Tb Ta Vb Va ltac:(lia) ltac:(lia)) as [E1 E2].
        eexists. split; [exact E2 | exact E1].
      * destruct (String.ltb (op_ClientID a) (op_ClientID b)).
        -- destruct (insert_insert_shift d a b Ta Tb Va Vb ltac:(lia) Hb) as [E1 E2].
           eexists. split; [exact E1 | exact E2].
        -- destruct (insert_insert_shift d b a Tb Ta Vb Va ltac:(lia) ltac:(lia))
             as [E1 E2].
           eexists. split; [exact E2 | exact E1].
  - (* insert, delete *)
    apply insert_delete_outside; auto; [int_range|].
    destruct (Z.le_gt_cases (op_Position a) (op_Position b)); [now left|].
    destruct (Z.le_gt_cases (stop b) (op_Position a)); [now right|].
    exfalso. apply Hab. unfold inside. auto.
  - (* delete, insert *)
    assert (Hout : op_Position b <= op_Position a \/ stop a <= op_Position b).
    { destruct (Z.le_gt_cases (op_Position b) (op_Position a)); [now left|].
      destruct (Z.le_gt_cases (stop a) (op_Position b)); [now right|].
      exfalso. apply Hba. unfold inside. auto. }
    destruct (insert_delete_outside d b a Tb Ta Vb Va ltac:(int_range) Hout)
      as (S' & E1 & E2).
    exists S'. destruct (transformInsertDelete b a). split; assumption.
  - (* delete, delete *)
    apply delete_delete_converges; auto. int_range.
Qed.

(** C1 (the source departs from it). An insert strictly inside a deleted
    range: on the content abc, the insert of X at 1 and the delete of
    [0,2) are both valid, and the two orders of application end in bc and
    in Xc. *)
Theorem Transform_insert_inside_delete_diverges :
  let d := mkDocument "abc" 0 [] [] in
  let a := mkOperation OpInsert 1 "X" 0 "a" 0 in
  let b := mkOperation OpDelete 0 "" 2 "b" 0 in
  valid_on (Content d) a /\ valid_on (Content d) b
  /\ content_after d [a; snd (Transform a b)] = Some "bc"
  /\ content_after d [b; fst (Transform a b)] = Some "Xc"
  /\ ~ converges d a b.
Proof.
  cbv zeta. repeat split; try (unfold valid_on, len; simpl; lia).
  intros (S' & H1 & H2).
  vm_compute in H1, H2. congruence.
Qed.

(** The second uncovered case: a delete that ends inside the other one.
    On abcdef, after the delete of [0,4) the transformed delete of [1,3)
    has length -1 and its application panics; the other order ends in def
    where ef is the content without both ranges. *)
Lemma Transform_engulfed_delete_panics :
  let d := mkDocument "abcdef" 0 [] [] in
  let a := mkOperation OpDelete 0 "" 4 "a" 0 in
  let b := mkOperation OpDelete 1 "" 2 "b" 0 in
  valid_on (Content d) a /\ valid_on (Content d) b
  /\ op_Length (snd (Transform a b)) = -1
  /\ applyAll d [a; snd (Transform a b)] = Panic
  /\ content_after d [b; fst (Transform a b)] = Some "def".
Proof.
  cbv zeta. repeat split; try (unfold valid_on, len; simpl; lia).
Qed.

(** *** The overlapping case of delete against delete *)

(** C5, as the specification words it, fails: on abcdef the delete of
    [0,3) leads, the delete of [2,5) trails, and the leading delete comes
    back with length 2. *)
Lemma Transform_overlap_trims_leading_too :
  let a := mkOperation OpDelete 0 "" 3 "a" 0 in
  let b := mkOperation OpDelete 2 "" 3 "b" 0 in
  valid_on "abcdef" a /\ valid_on "abcdef" b /\ overlapping a b
  /\ op_Position a < op_Position b
  /\ ~ trims_trailing_only a b (fst (Transform a b)) (snd (Transform a b)).
Proof.
  cbv zeta. unfold overlapping, stop.
  repeat split; try (unfold valid_on, len; simpl; lia).
  intros (H & _). vm_compute in H. discriminate.
Qed.

(** C5, amended. Two overlapping deletes valid on one content, the
    trailing one not ending before the leading one (the leading delete is
    the one with the smaller position, the second argument on equal
    positions): [Transform] takes the overlap
    [min(end_a, end_b) - max(pos_a, pos_b)] off the lengths of both and
    moves the trailing delete to the leading position. *)
Theorem Transform_overlapping_deletes_trim_both (S : string) (a b : Operation) :
  overlapping a b ->
  valid_on S a -> valid_on S b -> representable S ->
  ~ engulfed a b ->
  Transform a b =
    if op_Position a <? op_Position b
    then (trim_leading a b, trim_trailing a b)
    else (trim_trailing b a, trim_leading b a).
Proof.
  intros (Ta & Tb & Hab & Hba) Va Vb Hr Hne.
  unfold valid_on in Va, Vb. rewrite Ta in Va. rewrite Tb in Vb.
  unfold stop in Hab, Hba.
  assert (Ea : add (op_Position a) (op_Length a) = op_Position a + op_Length a)
    by (apply add_small; int_range).
  assert (Eb : add (op_Position b) (op_Length b) = op_Position b + op_Length b)
    by (apply add_small; int_range).
  unfold Transform, transformDeleteDelete. rewrite Ta, Tb, !Ea, !Eb.
  replace (op_Position a + op_Length a <=? op_Position b) with false
    by (symmetry; apply Z.leb_gt; lia).
  replace (op_Position b + op_Length b <=? op_Position a) with false
    by (symmetry; apply Z.leb_gt; lia).
  unfold trim_leading, trim_trailing, overlap, stop.
  destruct (Z.ltb_spec (op_Position a) (op_Position b)) as [Hlt|Hge].
  - assert (Hends : op_Position a + op_Length a <= op_Position b + op_Length b).
    { destruct (Z.le_gt_cases (op_Position a + op_Length a)
                  (op_Position b + op_Length b)); [assumption|].
      exfalso. apply Hne. unfold engulfed, overlapping, stop.
      repeat split; try assumption.
      replace (op_Position a <? op_Position b) with true
        by (symmetry; apply Z.ltb_lt; lia). lia. }
    rewrite !sub_small by (rewrite ?sub_small by int_range; int_range).
    rewrite Z.min_l, Z.max_r by lia. reflexivity.
  - assert (Hends : op_Position b + op_Length b <= op_Position a + op_Length a).
    { destruct (Z.le_gt_cases (op_Position b + op_Length b)
                  (op_Position a + op_Length a)); [assumption|].
      exfalso. apply Hne. unfold engulfed, overlapping, stop.
      repeat split; try assumption.
      replace (op_Position a <? op_Position b) with false
        by (symmetry; apply Z.ltb_ge; lia). lia. }
    rewrite !sub_small by (rewrite ?sub_small by int_range; int_range).
    rewrite Z.min_l, Z.max_r by lia. reflexivity.
Qed.

Lemma Transform_overlapping_deletes_trim_both_witness :
  Transform (mkOperation OpDelete 0 "" 3 "a" 0) (mkOperation OpDelete 2 "" 3 "b" 0)
  = (mkOperation OpDelete 0 "" 2 "a" 0, mkOperation OpDelete 0 "" 2 "b" 0).
Proof.
  rewrite (Transform_overlapping_deletes_trim_both "abcdef").
  - reflexivity.
  - unfold overlapping, stop. simpl. repeat split; lia.
  - unfold valid_on, len. simpl. lia.
  - unfold valid_on, len. simpl. lia.
  - unfold representable, len, max_int. simpl. lia.
  - unfold engulfed, overlapping, stop. simpl. lia.
Defined.

(** *** Swapping the arguments *)



(** Adding the length of a string to an [int] gives the same [int] back
    only for the empty string. *)
Lemma add_fixed p l :
  in_range p -> 0 <= l <= max_int -> add p l = p -> l = 0.
Proof.
  intros Hp Hl. unfold add, wrap, in_range, min_int, max_int, modulus in *.
  destruct (Z.le_gt_cases 18446744073709551616 (p + l - -9223372036854775808))
    as [Hbig|Hsmall].
  - replace (p + l - -9223372036854775808)
      with ((p + l - -9223372036854775808 - 18446744073709551616)
            + 1 * 18446744073709551616) by lia.
    rewrite Z_mod_plus_full, Z.mod_small by lia. intros E. lia.
  - rewrite Z.mod_small by lia. intros E. lia.
Qed.

Lemma add_len_fixed p s :
  in_range p -> representable s -> add p (len s) = p -> s = "".
Proof.
  intros Hp Hs E.
  assert (H0 : len s = 0).
  { apply (add_fixed p); [assumption| |assumption].
    unfold representable in Hs. unfold len in *. lia. }
  clear E. destruct s; [reflexivity|]. unfold len in H0. simpl in H0. lia.
Qed.

(** The pairs C6 leaves out are the pairs on which the swap fails: two
    inserts at one position from one originator, unless both are empty. *)
Lemma Transform_same_originator_inserts_not_mirrored (a b : Operation) :
  well_formed a -> well_formed b ->
  representable (op_Content a) -> representable (op_Content b) ->
  op_Type a = OpInsert -> op_Type b = OpInsert ->
  op_Position a = op_Position b -> op_ClientID a = op_ClientID b ->
  op_Content a <> "" \/ op_Content b <> "" ->
  ~ mirrored a b.
Proof.
  intros (Ra & _) (Rb & _) Ha Hb Ta Tb Hp Hid Hne.
  unfold mirrored, Transform. rewrite Ta, Tb. unfold transformInsertInsert.
  rewrite Hp, Hid, Z.ltb_irrefl, Z.gtb_ltb, Z.ltb_irrefl, ltb_irrefl.
  cbn [fst snd]. intros E.
  injection E as E1 E2.
  apply (f_equal op_Position) in E1, E2.
  cbn [op_Position with_Position] in E1, E2. rewrite Hp in E2. symmetry in E2.
  destruct Hne as [Hne|Hne]; apply Hne.
  - exact (add_len_fixed _ _ Rb Ha E1).
  - exact (add_len_fixed _ _ Rb Hb E2).
Qed.

(** ... and two overlapping deletes that start at one position and differ
    in length (a length is an [int]). *)
Lemma Transform_unequal_deletes_not_mirrored (a b : Operation) :
  well_formed a -> well_formed b ->
  in_range (op_Length a) -> in_range (op_Length b) ->
  overlapping a b -> op_Position a = op_Position b ->
  op_Length a <> op_Length b ->
  ~ mirrored a b.
Proof.
  intros (Ra & La & Ea) (Rb & Lb & Eb) Ia Ib (Ta & Tb & Hab & Hba) Hp Hl.
  unfold stop in Hab, Hba.
  unfold mirrored, Transform. rewrite Ta, Tb. unfold transformDeleteDelete.
  rewrite (add_small _ _ Ea), (add_small _ _ Eb), Hp.
  replace (op_Position b + op_Length a <=? op_Position b) with false
    by (symmetry; apply Z.leb_gt; lia).
  replace (op_Position b + op_Length b <=? op_Position b) with false
    by (symmetry; apply Z.leb_gt; lia).
  rewrite Z.ltb_irrefl. cbn [fst snd]. intros E.
  apply (f_equal (fun p => op_Length (snd p))) in E.
  cbn [snd op_Length with_Length with_Position] in E.
  assert (Sa : sub (op_Position b + op_Length a) (op_Position b) = op_Length a).
  { rewrite sub_small; [lia|]. replace (_ - _) with (op_Length a) by lia. exact Ia. }
  assert (Sb : sub (op_Position b + op_Length b) (op_Position b) = op_Length b).
  { rewrite sub_small; [lia|]. replace (_ - _) with (op_Length b) by lia. exact Ib. }
  rewrite Sa, Sb in E.
  rewrite (sub_small (op_Length a) (op_Length a)),
          (sub_small (op_Length a) (op_Length b)) in E by int_range.
  lia.
Qed.



Lemma Transform_tie lo hi :
  op_Type lo = OpInsert -> op_Type hi = OpInsert ->
  op_Position lo = op_Position hi ->
  String.ltb (op_ClientID lo) (op_ClientID hi) = true ->
  in_range (op_Position hi + len (op_Content lo)) ->
  let hi' := with_Position hi (op_Position hi + len (op_Content lo)) in
  Transform lo hi = (lo, hi') /\ Transform hi lo = (hi', lo).
Proof.
  intros Hlo Hhi Hp Hlt Hr hi'. unfold Transform, transformInsertInsert.
  rewrite Hlo, Hhi, Hp, Z.ltb_irrefl, Z.gtb_ltb, Z.ltb_irrefl, Hlt, (ltb_asym _ _ Hlt).
  now rewrite add_small by assumption.
Qed.

(** C4. Two inserts at one position from distinct originators: the one
    with the smaller originator ([lo]) keeps its position, the other one
    ([hi]) is shifted right by the length of [lo]'s text, whichever way round
    the two are given to [Transform]; on a base content where they are valid,
    both orders of application put [lo]'s text before [hi]'s text. *)
Theorem Transform_same_position_tiebreak (d : Document) (a b : Operation) :
  op_Type a = OpInsert -> op_Type b = OpInsert ->
  op_Position a = op_Position b ->
  op_ClientID a <> op_ClientID b ->
  valid_on (Content d) a ->
  len (Content d) + len (op_Content a) + len (op_Content b) <= max_int ->
  exists lo hi : Operation,
    ((lo = a /\ hi = b) \/ (lo = b /\ hi = a))
    /\ String.ltb (op_ClientID lo) (op_ClientID hi) = true
    /\ let hi' := with_Position hi (op_Position hi + len (op_Content lo)) in
       Transform lo hi = (lo, hi')
       /\ Transform hi lo = (hi', lo)
       /\ exists before after : string,
            Content d = before +:+ after
            /\ len before = op_Position lo
            /\ content_after d [lo; hi']
               = Some (before +:+ op_Content lo +:+ op_Content hi +:+ after)
            /\ content_after d [hi; lo]
               = Some (before +:+ op_Content lo +:+ op_Content hi +:+ after).
Proof.
  intros Ha Hb Hp Hne Va Hbound.
  assert (Vb : valid_on (Content d) b).
  { unfold valid_on in *. rewrite Ha in Va. now rewrite Hb, <- Hp. }
  assert (Hgen : forall lo hi,
             op_Type lo = OpInsert -> op_Type hi = OpInsert ->
             op_Position lo = op_Position hi ->
             valid_on (Content d) lo -> valid_on (Content d) hi ->
             len (Content d) + len (op_Content lo) + len (op_Content hi) <= max_int ->
             String.ltb (op_ClientID lo) (op_ClientID hi) = true ->
             let hi' := with_Position hi (op_Position hi + len (op_Content lo)) in
             Transform lo hi = (lo, hi')
             /\ Transform hi lo = (hi', lo)
             /\ exists before after : string,
                  Content d = before +:+ after
                  /\ len before = op_Position lo
                  /\ content_after d [lo; hi']
                     = Some (before +:+ op_Content lo +:+ op_Content hi +:+ after)
                  /\ content_after d [hi; lo]
                     = Some (before +:+ op_Content lo +:+ op_Content hi +:+ after)).
  { clear. intros lo hi Hlo Hhi Hp Vlo Vhi Hbound Hlt hi'.
    assert (Vlo' := Vlo). unfold valid_on in Vlo'. rewrite Hlo in Vlo'.
    pose proof (len_to_list (Content d)) as HL.
    pose proof (len_nonneg (op_Content lo)). pose proof (len_nonneg (op_Content hi)).
    assert (Hr : in_range (op_Position hi + len (op_Content lo))) by int_range.
    destruct (Transform_tie lo hi Hlo Hhi Hp Hlt Hr) as [T1 T2].
    split; [exact T1|]. split; [exact T2|].
    exists (of_list (take (Z.to_nat (op_Position lo)) (to_list (Content d)))),
           (of_list (drop (Z.to_nat (op_Position lo)) (to_list (Content d)))).
    destruct (insert_insert_shift d lo hi Hlo Hhi Vlo Vhi ltac:(lia) Hbound) as [E1 E2].
    rewrite add_small in E1 by assumption. fold hi' in E1.
    assert (ES : of_list
              (splice (Z.to_nat (op_Position lo)) (to_list (op_Content lo))
                 (splice (Z.to_nat (op_Position hi)) (to_list (op_Content hi))
                    (to_list (Content d))))
            = of_list (take (Z.to_nat (op_Position lo)) (to_list (Content d)))
              +:+ op_Content lo +:+ op_Content hi
              +:+ of_list (drop (Z.to_nat (op_Position lo)) (to_list (Content d)))).
    { rewrite <- Hp, splice_splice_same by lia.
      now rewrite !of_list_app, !of_list_to_list. }
    rewrite ES in E1, E2.
    repeat split; try assumption.
    - now rewrite <- of_list_app, take_drop, of_list_to_list.
    - rewrite len_of_list, length_take. lia. }
  destruct (ltb_total _ _ Hne) as [Hlt|Hlt].
  - exists a, b. split; [now left|]. split; [exact Hlt|].
    now apply Hgen.
  - exists b, a. split; [now right|]. split; [exact Hlt|].
    apply Hgen; auto. lia.
Qed.

(** The claim at a concrete pair: originators a1 and b9 insert at position
    1 of the content XY (scenario 2 of the specification). *)
Lemma Transform_same_position_tiebreak_witness :
  exists lo hi : Operation,
    String.ltb (op_ClientID lo) (op_ClientID hi) = true
    /\ content_after (mkDocument "XY" 5 [] [])
         [lo; with_Position hi (op_Position hi + len (op_Content lo))]
       = Some "XABY".
Proof.
  destruct (Transform_same_position_tiebreak
              (mkDocument "XY" 5 [] [])
              (mkOperation OpInsert 1 "B" 0 "b9" 5)
              (mkOperation OpInsert 1 "A" 0 "a1" 5))
    as (lo & hi & Hwho & Hlt & _ & _ & before & after & HS & Hlen & H1 & _).
  - reflexivity.
  - reflexivity.
  - reflexivity.
  - discriminate.
  - unfold valid_on; simpl; unfold len; simpl; lia.
  - unfold len, max_int; simpl; lia.
  - exists lo, hi. split; [exact Hlt|].
    destruct Hwho as [[-> ->]|[-> ->]]; [discriminate Hlt|].
    vm_compute. reflexivity.
Defined.

(** *** [GenerateOperation] *)

(** The search loop returns, and what it returns is the first index in
    [[i, i+n)] at which the two contents differ, if there is one. *)
Lemma firstDifference_scan n : forall i old new,
  0 <= i -> i + Z.of_nat n <= len old -> i + Z.of_nat n <= len new ->
  representable old ->
  exists r, firstDifference n i old new = Return r
    /\ match r with
       | Some j =>
           i <= j < i + Z.of_nat n
           /\ (forall k : nat, i <= Z.of_nat k < j -> to_list old !! k = to_list new !! k)
           /\ to_list old !! Z.to_nat j <> to_list new !! Z.to_nat j
       | None =>
           forall k : nat, i <= Z.of_nat k < i + Z.of_nat n ->
                           to_list old !! k = to_list new !! k
       end.
Proof.
  induction n as [|n IH]; intros i old new Hi Ho Hn Hr.
  - exists None. split; [reflexivity|]. intros k Hk. lia.
  - cbn [firstDifference].
    pose proof (len_to_list old) as Lo. pose proof (len_to_list new) as Ln.
    destruct (lookup_lt_is_Some_2 (to_list old) (Z.to_nat i) ltac:(lia)) as [a Ha].
    destruct (lookup_lt_is_Some_2 (to_list new) (Z.to_nat i) ltac:(lia)) as [b Hb].
    rewrite (index_Return old i a Hi Ha), (index_Return new i b Hi Hb). cbn [obind].
    destruct (Ascii.eqb_spec a b) as [->|Hne].
    + assert (E : add i 1 = i + 1) by (apply add_small; int_range).
      rewrite E.
      destruct (IH (i + 1) old new ltac:(lia) ltac:(lia) ltac:(lia) Hr) as (r & Hrun & Hspec).
      exists r. split; [exact Hrun|].
      destruct r as [j|].
      * destruct Hspec as (Hj & Hagree & Hdiff). split; [lia|]. split; [|exact Hdiff].
        intros k Hk. destruct (decide (Z.of_nat k = i)) as [Hki|Hki].
        -- replace k with (Z.to_nat i) by lia. now rewrite Ha, Hb.
        -- apply Hagree. lia.
      * intros k Hk. destruct (decide (Z.of_nat k = i)) as [Hki|Hki].
        -- replace k with (Z.to_nat i) by lia. now rewrite Ha, Hb.
        -- apply Hspec. lia.
    + exists (Some i). split; [reflexivity|]. split; [lia|]. split.
      * intros k Hk. lia.
      * rewrite Ha, Hb. congruence.
Qed.

Lemma agree_take {A : Type} (l k : list A) (j : nat) :
  (forall i : nat, (i < j)%nat -> l !! i = k !! i) -> take j l = take j k.
Proof.
  intros H. apply list_eq. intros i.
  destruct (decide (i < j)%nat) as [Hi|Hi].
  - rewrite !lookup_take_lt by exact Hi. now apply H.
  - rewrite !lookup_take_ge by lia. reflexivity.
Qed.

Lemma GenerateOperation_shape old new position clientID :
  representable old -> representable new ->
  exists op, GenerateOperation old new position clientID = Return op
    /\ (generated old new clientID op
        \/ (len old = len new /\ op = mkOperation OpRetain 0 "" 0 "" 0)).
Proof.
  intros Ho Hn. unfold GenerateOperation.
  pose proof (len_to_list old) as Lo. pose proof (len_to_list new) as Ln.
  rewrite !Z.gtb_ltb.
  destruct (Z.ltb_spec (len old) (len new)) as [Hlt|Hge].
  - (* insertion *)
    assert (Es : sub (len new) (len old) = len new - len old)
      by (apply sub_small; int_range).
    rewrite Es, Z.min_l by lia.
    destruct (firstDifference_scan (Z.to_nat (len old)) 0 old new
                ltac:(lia) ltac:(lia) ltac:(lia) Ho) as (r & Hrun & Hspec).
    rewrite Hrun. cbn [obind]. destruct r as [j|].
    + destruct Hspec as (Hj & Hagree & Hdiff).
      assert (Ea : add j (len new - len old) = j + (len new - len old))
        by (apply add_small; int_range).
      rewrite Ea, slice_Return by lia. cbn [obind].
      eexists. split; [reflexivity|]. left. exists j.
      split; [lia|]. split; [apply agree_take; intros; apply Hagree; lia|].
      split; [intros _; exact Hdiff|]. left. split; [lia|].
      do 3 f_equal. lia.
    + rewrite slice_from_Return by lia. cbn [obind].
      eexists. split; [reflexivity|]. left. exists (len old).
      split; [lia|]. split; [apply agree_take; intros; apply Hspec; lia|].
      split; [lia|]. left. split; [lia|].
      f_equal. f_equal. symmetry. apply take_ge. rewrite length_drop. lia.
  - destruct (Z.ltb_spec (len new) (len old)) as [Hlt|Hle].
    + (* deletion *)
      assert (Es : sub (len old) (len new) = len old - len new)
        by (apply sub_small; int_range).
      rewrite Es.
      destruct (firstDifference_scan (Z.to_nat (len new)) 0 old new
                  ltac:(lia) ltac:(lia) ltac:(lia) Ho) as (r & Hrun & Hspec).
      rewrite Hrun. cbn [obind]. destruct r as [j|].
      * destruct Hspec as (Hj & Hagree & Hdiff).
        eexists. split; [reflexivity|]. left. exists j.
        split; [lia|]. split; [apply agree_take; intros; apply Hagree; lia|].
        split; [intros _; exact Hdiff|]. right. split; [lia|reflexivity].
      * eexists. split; [reflexivity|]. left. exists (len new).
        split; [lia|]. split; [apply agree_take; intros; apply Hspec; lia|].
        split; [lia|]. right. split; [lia|reflexivity].
    + eexists. split; [reflexivity|]. right. split; [lia|reflexivity].
Qed.

Lemma generated_valid old new clientID op :
  representable old -> representable new ->
  generated old new clientID op ->
  valid_on old op
  /\ (op_Type op = OpInsert ->
      len (op_Content op) = len new - len old
      /\ op_Position op + len (op_Content op) <= len new)
  /\ op_Type op <> OpRetain.
Proof.
  intros Ho Hn (j & Hj & _ & _ & [[Hlt ->]|[Hlt ->]]); unfold valid_on; cbn.
  - pose proof (len_to_list new) as Ln.
    assert (Hlen : len (of_list (take (Z.to_nat (len new - len old))
                                  (drop (Z.to_nat j) (to_list new))))
                   = len new - len old).
    { rewrite len_of_list, length_take, length_drop. lia. }
    repeat split; try lia; try discriminate.
  - repeat split; try lia; discriminate.
Qed.

(** C10. Whatever the two contents, [GenerateOperation] returns an operation
    (no slice of it is out of range), and that operation applies to the old
    content without error: an Insert lies in [0, len(old)] and its text is a
    slice of the new content, a Delete is a range of the old content, and
    contents of equal length give a Retain. *)
Theorem GenerateOperation_applies (d : Document) (newContent : string)
    (position : Z) (clientID : string) :
  representable (Content d) -> representable newContent ->
  exists (op : Operation) (d' : Document),
    GenerateOperation (Content d) newContent position clientID = Return op
    /\ match op_Type op with
       | OpInsert => 0 <= op_Position op <= len (Content d)
                     /\ op_Position op + len (op_Content op) <= len newContent
       | OpDelete => 0 <= op_Position op
                     /\ op_Position op + op_Length op <= len (Content d)
       | OpRetain => True
       end
    /\ (len (Content d) = len newContent -> op_Type op = OpRetain)
    /\ Apply d op = Return (d', None).
Proof.
  intros Ho Hn.
  destruct (GenerateOperation_shape (Content d) newContent position clientID Ho Hn)
    as (op & Hgen & [Hg|[Hlen ->]]).
  - destruct (generated_valid _ _ _ _ Ho Hn Hg) as (Hv & Hins & _).
    exists op. eexists. split; [exact Hgen|]. split; [|split].
    + unfold valid_on in Hv. destruct (op_Type op); [|lia|exact I].
      split; [exact Hv|]. now apply Hins.
    + intros Hlen. destruct Hg as (j & _ & _ & _ & [[Hlt _]|[Hlt _]]); lia.
    + now apply Apply_valid.
  - eexists. eexists. split; [exact Hgen|]. split; [exact I|]. split; [reflexivity|].
    reflexivity.
Qed.

Lemma GenerateOperation_applies_witness :
  exists (op : Operation) (d' : Document),
    GenerateOperation "hello" "help, hello" 0 "a1" = Return op
    /\ Apply (mkDocument "hello" 3 [] []) op = Return (d', None).
Proof.
  destruct (GenerateOperation_applies (mkDocument "hello" 3 [] []) "help, hello" 0 "a1")
    as (op & d' & Hgen & _ & _ & Happ).
  - unfold representable, len, max_int. simpl. lia.
  - unfold representable, len, max_int. simpl. lia.
  - exists op, d'. split; assumption.
Defined.

(** *** Round trip of a single edit *)

Lemma difference_past_prefix {A : Type} (a u v : list A) (j : nat) :
  (j <= length (a ++ u))%nat -> (j <= length (a ++ v))%nat ->
  ((j < length (a ++ u))%nat -> (j < length (a ++ v))%nat ->
   (a ++ u) !! j <> (a ++ v) !! j) ->
  (length a <= j)%nat.
Proof.
  intros Hu Hv Hd. destruct (decide (length a <= j)%nat) as [|Hlt]; [assumption|].
  exfalso. rewrite !length_app in *. apply Hd; try lia.
  rewrite !lookup_app_l by lia. reflexivity.
Qed.

Lemma drop_past_insert {A : Type} (a x b : list A) (j : nat) :
  (length a <= j)%nat ->
  drop j (a ++ b) = drop (j + length x) (a ++ x ++ b).
Proof.
  intros H. rewrite !drop_app.
  rewrite (drop_ge a j), (drop_ge a (j + length x)), (drop_ge x) by lia.
  cbn [app]. f_equal. lia.
Qed.

Lemma empty_of_len s : len s = 0 -> s = "".
Proof. destruct s; [reflexivity|]. unfold len. simpl. lia. Qed.

(** C7. When [T] is [S] with one contiguous run inserted, or with one
    contiguous run deleted, [GenerateOperation] returns an operation whose
    application to [S] succeeds and yields exactly [T]. *)
Theorem GenerateOperation_Apply_roundtrip (d : Document) (T : string)
    (position : Z) (clientID : string) :
  representable (Content d) -> representable T ->
  one_insertion (Content d) T \/ one_deletion (Content d) T ->
  exists (op : Operation) (d' : Document),
    GenerateOperation (Content d) T position clientID = Return op
    /\ Apply d op = Return (d', None)
    /\ Content d' = T.
Proof.
  intros Ho Hn Hedit.
  destruct (GenerateOperation_shape (Content d) T position clientID Ho Hn)
    as (op & Hgen & [Hg|[Hlen ->]]).
  - destruct (generated_valid _ _ _ _ Ho Hn Hg) as (Hv & _ & _).
    exists op. eexists. split; [exact Hgen|]. split; [now apply Apply_valid|].
    cbn [Content]. apply to_list_inj. rewrite to_list_of_list.
    pose proof (len_to_list (Content d)) as Lo. pose proof (len_to_list T) as Ln.
    destruct Hg as (j & Hj & Hagree & Hdiff & [[Hlt ->]|[Hlt ->]]);
      unfold denote; cbn [op_Type op_Position op_Content op_Length].
    + (* the generated insert *)
      destruct Hedit as [(A & X & B & HS & HT)|(A & X & B & HT & HS)];
        [|exfalso; rewrite HS, HT, !len_app in Hlt; pose proof (len_nonneg X); lia].
      rewrite to_list_of_list. unfold splice. rewrite Hagree.
      assert (Hk : Z.to_nat (len T - len (Content d)) = length (to_list X)).
      { rewrite HS, HT, !len_app, (len_to_list X). lia. }
      assert (Hpre : (length (to_list A) <= Z.to_nat j)%nat).
      { rewrite HS, HT, !to_list_app in *.
        apply (difference_past_prefix (to_list A) (to_list B) (to_list X ++ to_list B));
          try lia.
        intros H1 H2. apply Hdiff. lia. }
      rewrite Hk, HS, to_list_app.
      rewrite (drop_past_insert (to_list A) (to_list X) (to_list B) _ Hpre).
      rewrite <- !to_list_app, <- HT.
      rewrite <- drop_drop, take_drop, take_drop. reflexivity.
    + (* the generated delete *)
      destruct Hedit as [(A & X & B & HS & HT)|(A & X & B & HT & HS)];
        [exfalso; rewrite HS, HT, !len_app in Hlt; pose proof (len_nonneg X); lia|].
      unfold cut. rewrite Hagree.
      assert (Hk : Z.to_nat (len (Content d) - len T) = length (to_list X)).
      { rewrite HS, HT, !len_app, (len_to_list X). lia. }
      assert (Hpre : (length (to_list A) <= Z.to_nat j)%nat).
      { rewrite HS, HT, !to_list_app in *.
        apply (difference_past_prefix (to_list A) (to_list X ++ to_list B) (to_list B));
          try lia.
        intros H1 H2. apply Hdiff. lia. }
      rewrite Hk, HS, !to_list_app.
      rewrite <- (drop_past_insert (to_list A) (to_list X) (to_list B) _ Hpre).
      rewrite <- to_list_app, <- HT. apply take_drop.
  - (* equal lengths: the inserted or deleted run is empty *)
    eexists. eexists. split; [exact Hgen|]. split; [reflexivity|]. cbn [Content].
    destruct Hedit as [(A & X & B & HS & HT)|(A & X & B & HT & HS)];
      rewrite HS, HT, !len_app in Hlen;
      assert (X = "") as -> by (apply empty_of_len; lia);
      rewrite HS, HT; reflexivity.
Qed.

Lemma GenerateOperation_Apply_roundtrip_witness :
  exists (op : Operation) (d' : Document),
    GenerateOperation "XY" "XAY" 0 "a1" = Return op
    /\ Apply (mkDocument "XY" 5 [] []) op = Return (d', None)
    /\ Content d' = "XAY".
Proof.
  apply (GenerateOperation_Apply_roundtrip (mkDocument "XY" 5 [] []) "XAY" 0 "a1").
  - unfold representable, len, max_int. simpl. lia.
  - unfold representable, len, max_int. simpl. lia.
  - left. exists "X", "A", "Y". split; reflexivity.
Defined.

End OtFacts.

(** ** The OT manager *)

Module EditorFacts.

Import GoInt GoIntFacts GoStringFacts ot OtSpec OtFacts editor EditorSpec.

Lemma ProcessTextUpdate_submitted m clientID newContent clientVersion :
  ProcessTextUpdate m clientID newContent clientVersion =
    let! op := submitted m clientID newContent clientVersion in
    let! applied := Apply (document m) op in
    match applied with
    | (d, Some err) =>
        Return (mkOTManager d (pendingOps m) (lastContent m) (documentID m),
                (Content d, Version d, Some err))
    | (d, None) =>
        Return (mkOTManager d (pendingOps m) (Content d) (documentID m),
                (Content d, Version d, None))
    end.
Proof.
  unfold ProcessTextUpdate, submitted.
  destruct (GenerateOperation (lastContent m) newContent 0 clientID); reflexivity.
Qed.

Lemma same_manager m :
  mkOTManager (document m) (pendingOps m) (lastContent m) (documentID m) = m.
Proof. now destruct m. Qed.

(** C8. An operation that the guards of [Apply] turn down (an Insert outside
    [0, len(content)], a Delete that starts below 0 or ends past the content)
    makes [Apply] return an error with the document as it was; an error
    return of [Apply] never comes with a changed document; and
    [ProcessTextUpdate] then returns that error with the manager, its
    document, version and last snapshot, as they were. *)
Theorem failed_Apply_leaves_state (d : Document) (op : Operation) (m : OTManager)
    (clientID newContent : string) (clientVersion : Z) :
  (rejected (Content d) op -> exists e, Apply d op = Return (d, Some e))
  /\ (forall d' e, Apply d op = Return (d', Some e) -> d' = d)
  /\ (forall op',
        submitted m clientID newContent clientVersion = Return op' ->
        rejected (Content (document m)) op' ->
        exists e,
          Apply (document m) op' = Return (document m, Some e)
          /\ ProcessTextUpdate m clientID newContent clientVersion =
               Return (m, (Content (document m), Version (document m), Some e)))
  /\ (forall m' results e,
        ProcessTextUpdate m clientID newContent clientVersion
          = Return (m', (results, Some e)) ->
        m' = m /\ results = (Content (document m), Version (document m))).
Proof.
  split; [apply Apply_rejected|]. split; [|split].
  - intros d' e H. destruct (Apply_cases _ _ _ H) as [(e' & E & _)|(c & E & _)];
      congruence.
  - intros op' Hsub Hrej. destruct (Apply_rejected _ _ Hrej) as [e He].
    exists e. split; [exact He|].
    rewrite ProcessTextUpdate_submitted, Hsub. cbn [obind]. rewrite He. cbn [obind].
    now rewrite same_manager.
  - intros m' results e H. rewrite ProcessTextUpdate_submitted in H.
    destruct (submitted m clientID newContent clientVersion) as [op'|]; [|discriminate].
    cbn [obind] in H.
    destruct (Apply (document m) op') as [[d' [e'|]]|] eqn:E; cbn [obind] in H;
      try discriminate.
    destruct (Apply_cases _ _ _ E) as [(e'' & E' & _)|(c & E' & _)]; [|discriminate].
    injection E' as -> _. injection H as <- <- _.
    now rewrite same_manager.
Qed.

(** A manager whose snapshot is ahead of its document: the insert that the
    diff finds at 3 is turned down by the empty document. *)
Lemma failed_Apply_leaves_state_witness :
  let m := mkOTManager NewDocument [] "abc" "doc" in
  rejected "" (mkOperation OpInsert 3 "d" 0 "a1" 0)
  /\ exists e,
       Apply NewDocument (mkOperation OpInsert 3 "d" 0 "a1" 0) = Return (NewDocument, Some e)
       /\ ProcessTextUpdate m "a1" "abcd" 0 = Return (m, ("", 0, Some e)).
Proof.
  cbv zeta.
  assert (Hrej : rejected "" (mkOperation OpInsert 3 "d" 0 "a1" 0)).
  { unfold rejected, len. simpl. lia. }
  split; [exact Hrej|].
  destruct (failed_Apply_leaves_state NewDocument (mkOperation OpInsert 3 "d" 0 "a1" 0)
              (mkOTManager NewDocument [] "abc" "doc") "a1" "abcd" 0)
    as (_ & _ & Hupd & _).
  destruct (Hupd (mkOperation OpInsert 3 "d" 0 "a1" 0) eq_refl Hrej) as (e & He & Hm).
  exists e. split; assumption.
Defined.

(** *** Rebasing a late update *)

Lemma TransformAgainstHistory_no_pending d op :
  PendingOps d = [] -> TransformAgainstHistory d op = op.
Proof. unfold TransformAgainstHistory. now intros ->. Qed.

(** Nothing ever appends to [PendingOps], and the snapshot follows the
    content of the document. *)
Lemma reachable_invariant m :
  reachable m ->
  PendingOps (document m) = [] /\ lastContent m = Content (document m).
Proof.
  induction 1 as [documentID|m m' clientID newContent clientVersion results _ IH Hstep].
  - split; reflexivity.
  - destruct IH as [Hp Hl]. rewrite ProcessTextUpdate_submitted in Hstep.
    destruct (submitted m clientID newContent clientVersion) as [op|]; [|discriminate].
    cbn [obind] in Hstep.
    destruct (Apply (document m) op) as [r|] eqn:E; [|discriminate].
    cbn [obind] in Hstep.
    destruct (Apply_cases _ _ _ E) as [(e & -> & _)|(c & -> & _)];
      injection Hstep as <- _; cbn; auto.
Qed.

(** On every reachable manager the operation that is applied is the one the
    diff generated, with the client version stamped on it and nothing else
    done to it, whatever the history holds. *)
Lemma ProcessTextUpdate_never_rebases m clientID newContent clientVersion :
  reachable m ->
  submitted m clientID newContent clientVersion =
    let! op := GenerateOperation (lastContent m) newContent 0 clientID in
    Return (with_Version op clientVersion).
Proof.
  intros Hm. destruct (reachable_invariant m Hm) as [Hp _]. unfold submitted.
  destruct (GenerateOperation (lastContent m) newContent 0 clientID); [|reflexivity].
  cbn [obind]. rewrite TransformAgainstHistory_no_pending by exact Hp.
  now destruct (clientVersion <? Version (document m)).
Qed.

(** C2 (the source departs from it). Scenario 3 of the specification: four
    inserts from other clients make the content ok!? at version 4; a client
    that is at version 3 submits okZ!?, that is, Z inserted at 2. The entry
    appended to the history is that insert at position 2, while the rebase
    against the four applied entries moves it to position 6. *)
Theorem ProcessTextUpdate_ignores_applied_history :
  exists m m' : OTManager,
    updates (NewOTManager "doc")
      [("b1", "o", 0); ("b2", "ok", 1); ("b3", "ok!", 2); ("b4", "ok!?", 3)] = Return m
    /\ GetDocument m = ("ok!?", 4)
    /\ AcknowledgedOps (document m) =
         [mkOperation OpInsert 0 "o" 0 "b1" 0; mkOperation OpInsert 1 "k" 0 "b2" 1;
          mkOperation OpInsert 2 "!" 0 "b3" 2; mkOperation OpInsert 3 "?" 0 "b4" 3]
    /\ PendingOps (document m) = []
    /\ GenerateOperation (lastContent m) "okZ!?" 0 "c" =
         Return (mkOperation OpInsert 2 "Z" 0 "c" 0)
    /\ 3 < Version (document m)
    /\ ProcessTextUpdate m "c" "okZ!?" 3 = Return (m', ("okZ!?", 5, None))
    /\ last (AcknowledgedOps (document m')) = Some (mkOperation OpInsert 2 "Z" 0 "c" 3)
    /\ rebased_on_history "c" (AcknowledgedOps (document m))
         (mkOperation OpInsert 2 "Z" 0 "c" 3)
       = mkOperation OpInsert 6 "Z" 0 "c" 3.
Proof.
  eexists. eexists. split; [vm_compute; reflexivity|].
  repeat split; vm_compute; reflexivity.
Qed.

(** *** The version the service reports *)

(** The record the service creates starts at version 1 while its engine
    starts at version 0; the first update that the engine accepts brings
    both to 1. *)
Lemma service_newDocument_Version id :
  service.Version (service.newDocument id) = 1
  /\ (exists m, service.OTManager (service.newDocument id) = Some m
                /\ GetDocument m = ("", 0))
  /\ exists doc,
       service.UpdateDocument (service.newDocument id) "hello" "a1" 0
         = Return (doc, ("hello", 1, None))
       /\ service.Version doc = 1.
Proof.
  split; [reflexivity|]. split.
  - eexists. split; reflexivity.
  - eexists. split; reflexivity.
Qed.

End EditorFacts.

(** ** The hub: no frame goes back to its originator *)

Module HubFacts.

Import editor HubSpec.

Lemma spares_refl who h : spares who h h.
Proof. intros q c Hq _. exact Hq. Qed.

Lemma spares_trans who h1 h2 h3 :
  spares who h1 h2 -> spares who h2 h3 -> spares who h1 h3.
Proof. intros H12 H23 q c Hq Hid. apply H23; [|exact Hid]. now apply H12. Qed.

Lemma sendOrEvict_spares docID message excludeClientID h client h' :
  sendOrEvict docID message excludeClientID h client = Return h' ->
  spares excludeClientID h h'.
Proof.
  unfold sendOrEvict. intros H q c Hq Hid.
  destruct (heap h !! client) as [c0|] eqn:Hc; [|discriminate].
  destruct (String.eqb_spec (id c0) excludeClientID) as [Heq|Hne]; cbn [negb] in H.
  - injection H as <-. exact Hq.
  - assert (Hqc : client <> q).
    { intros ->. rewrite Hq in Hc. injection Hc as ->. contradiction. }
    destruct (trySend (send c0) message) as [[ch|]|]; cbn [obind] in H;
      [|destruct (close (send c0)) as [ch|]; cbn [obind] in H|]; try discriminate;
      injection H as <-; cbn [heap]; rewrite lookup_insert_ne by exact Hqc; exact Hq.
Qed.

Lemma sendOrDrop_spares message excludeClientID h client h' :
  sendOrDrop message excludeClientID h client = Return h' ->
  spares excludeClientID h h'.
Proof.
  unfold sendOrDrop. intros H q c Hq Hid.
  destruct (heap h !! client) as [c0|] eqn:Hc; [|discriminate].
  destruct (String.eqb_spec (id c0) excludeClientID) as [Heq|Hne]; cbn [negb] in H.
  - injection H as <-. exact Hq.
  - assert (Hqc : client <> q).
    { intros ->. rewrite Hq in Hc. injection Hc as ->. contradiction. }
    destruct (trySend (send c0) message) as [[ch|]|]; cbn [obind] in H;
      [|destruct (close (send c0)) as [ch|]; cbn [obind] in H|]; try discriminate;
      injection H as <-; cbn [heap]; rewrite lookup_insert_ne by exact Hqc; exact Hq.
Qed.

Lemma forEach_spares who (body : Hub -> ptr -> outcome Hub) :
  (forall h p h', body h p = Return h' -> spares who h h') ->
  forall order h h', forEach body order h = Return h' -> spares who h h'.
Proof.
  intros Hbody. induction order as [|p order IH]; intros h h' H.
  - injection H as <-. apply spares_refl.
  - cbn [forEach] in H. destruct (body h p) as [h1|] eqn:E; [|discriminate].
    cbn [obind] in H. eapply spares_trans; [eapply Hbody; exact E | eapply IH; exact H].
Qed.

(** Whatever the order in which the clients of the document are visited,
    [broadcastToDocument] neither sends to nor closes a client whose
    identifier is the excluded one. *)
Lemma broadcastToDocument_spares h order docID message excludeClientID h' :
  broadcastToDocument h order docID message excludeClientID = Return h' ->
  spares excludeClientID h h'.
Proof.
  unfold broadcastToDocument. destruct (documentClients h !! docID).
  - apply forEach_spares. intros. eapply sendOrEvict_spares. eassumption.
  - intros H. injection H as <-. apply spares_refl.
Qed.

Lemma broadcastToAll_spares h order message excludeClientID h' :
  broadcastToAll h order message excludeClientID = Return h' ->
  spares excludeClientID h h'.
Proof.
  unfold broadcastToAll. apply forEach_spares. intros. eapply sendOrDrop_spares. eassumption.
Qed.

Section Wire.

Variable marshal : Message -> option string.
Variable unmarshal : string -> option Message.

(** The hub routes every frame with the [clientId] it carries as the
    excluded identifier. *)
Lemma handleBroadcast_spares h order message msg h' :
  unmarshal message = Some msg ->
  handleBroadcast unmarshal h order message = Return h' ->
  spares (msg_ClientID msg) h h'.
Proof.
  unfold handleBroadcast. intros ->.
  destruct (String.eqb (msg_Type msg) "text_update"
            || String.eqb (msg_Type msg) "cursor_position"
            || String.eqb (msg_Type msg) "selection").
  - apply broadcastToDocument_spares.
  - destruct (String.eqb (msg_Type msg) "broadcast_all").
    + apply broadcastToAll_spares.
    + destruct (negb (String.eqb (msg_DocumentID msg) "")).
      * apply broadcastToDocument_spares.
      * intros H. injection H as <-. intros q c Hq _. exact Hq.
Qed.

Ltac own_list :=
  repeat first [ apply Forall_nil_2 | apply Forall_cons_2; [cbn; auto 6|] ].

Lemma handleTextUpdate_own a c msg :
  Forall (own c) (handleTextUpdate a c msg).
Proof.
  unfold handleTextUpdate.
  destruct (service_present a && UpdateDocument_failed a); own_list.
Qed.

Lemma handleTextUpdate2_own a c msg :
  Forall (own c) (handleTextUpdate2 a c msg).
Proof.
  unfold handleTextUpdate2.
  destruct (service_present a); [destruct (UpdateDocument_failed a)|]; own_list.
Qed.

Lemma handleDocumentRequest_own a c :
  Forall (own c) (handleDocumentRequest a c).
Proof.
  unfold handleDocumentRequest.
  destruct (service_present a && negb (GetDocument_failed a)); own_list.
Qed.

(** The identifier and the document of a client do not change while it
    handles a message, and everything it emits is its own. *)
Lemma processMessage_own a c message c' es :
  processMessage unmarshal a c message = Return (c', es) ->
  id c' = id c /\ Forall (own c) es.
Proof.
  unfold processMessage. destruct (unmarshal message) as [msg|].
  - set (m := stamp c msg).
    assert (Hm : msg_ClientID m = id c /\ msg_DocumentID m = client_documentID c)
      by (split; reflexivity).
    clearbody m. destruct Hm as [Hid Hdoc].
    destruct (String.eqb (msg_Type m) "text_update").
    { intros H. injection H as <- <-. split; [reflexivity|]. apply handleTextUpdate_own. }
    destruct (String.eqb (msg_Type m) "cursor_position").
    { intros H. injection H as <- <-. split; [reflexivity|]. own_list. }
    destruct (String.eqb (msg_Type m) "selection").
    { unfold handleSelection. intros H.
      destruct (msg_Data m) as [|v|selData]; cbn [obind] in H.
      - injection H as <- <-. split; [reflexivity|]. own_list.
      - injection H as <- <-. split; [reflexivity|]. own_list.
      - destruct (mustFloat selData "start"); cbn [obind] in H; [|discriminate].
        destruct (mustFloat selData "end"); cbn [obind] in H; [|discriminate].
        injection H as <- <-. split; [reflexivity|]. own_list. }
    destruct (String.eqb (msg_Type m) "request_document").
    { intros H. injection H as <- <-. split; [reflexivity|].
      apply handleDocumentRequest_own. }
    destruct (String.eqb (msg_Type m) "save_document").
    { intros H. injection H as <- <-. split; [reflexivity|]. own_list. }
    destruct (String.eqb (msg_Type m) "typing_start").
    { intros H. injection H as <- <-. split; [reflexivity|]. own_list. }
    destruct (String.eqb (msg_Type m) "typing_stop").
    { intros H. injection H as <- <-. split; [reflexivity|]. own_list. }
    destruct (String.eqb (msg_Type m) "ping").
    { intros H. injection H as <- <-. split; [reflexivity|]. own_list. }
    intros H. injection H as <- <-. split; [reflexivity|]. own_list.
  - intros H. injection H as <- <-. split; [reflexivity|]. own_list.
Qed.

Lemma processMessage2_own a c message :
  Forall (own c) (processMessage2 unmarshal a c message).
Proof.
  unfold processMessage2. destruct (unmarshal message) as [msg|]; [|own_list].
  set (m := stamp c msg).
  assert (Hm : msg_ClientID m = id c /\ msg_DocumentID m = client_documentID c)
    by (split; reflexivity).
  clearbody m. destruct Hm as [Hid Hdoc].
  destruct (String.eqb (msg_Type m) "text_update"); [apply handleTextUpdate2_own|].
  destruct (String.eqb (msg_Type m) "request_document");
    [apply handleDocumentRequest_own|].
  destruct (String.eqb (msg_Type m) "save_document"); [own_list|].
  destruct (String.eqb (msg_Type m) "typing_start"); [own_list|].
  destruct (String.eqb (msg_Type m) "typing_stop"); [own_list|].
  destruct (String.eqb (msg_Type m) "cursor_position").
  { unfold handleCursorPosition2.
    destruct (service_present a && GetDocument_failed a); own_list. }
  destruct (String.eqb (msg_Type m) "selection_change").
  { unfold handleSelectionChange. destruct (msg_Data m) as [|v|sel]; own_list. }
  destruct (String.eqb (msg_Type m) "ping"); own_list.
Qed.

(** What [json.Unmarshal] reads back from a frame that [json.Marshal]
    wrote carries the same [clientId]. *)
Hypothesis clientId_survives :
  forall (m m' : Message) (frame : string),
    marshal m = Some frame -> unmarshal frame = Some m' ->
    msg_ClientID m' = msg_ClientID m.

(** C9. While a client handles one inbound message (either version of
    [processMessage]), every message it passes to the hub carries its own
    identifier, and what it sends to itself is an error, a document state or
    a save confirmation; and the hub, for every frame it takes from its
    broadcast channel and in whatever order it visits the clients, leaves
    alone every client whose identifier is the [clientId] of the frame. So
    no frame that a client emitted is put on the queue of that client, or of
    any client with the same identifier. *)
Theorem hub_never_echoes (a : ServiceAnswers) (c : Client) (message : string)
    (es : list emission) :
  (exists c', processMessage unmarshal a c message = Return (c', es))
  \/ es = processMessage2 unmarshal a c message ->
  Forall (own c) es
  /\ (forall (frame : string) (msg : Message) (h : Hub) (order : list ptr) (h' : Hub),
        unmarshal frame = Some msg ->
        handleBroadcast unmarshal h order frame = Return h' ->
        spares (msg_ClientID msg) h h')
  /\ (forall (frame : string) (h : Hub) (order : list ptr) (h' : Hub),
        In frame (hubFrames marshal es) ->
        handleBroadcast unmarshal h order frame = Return h' ->
        spares (id c) h h').
Proof.
  intros Hes.
  assert (Hown : Forall (own c) es).
  { destruct Hes as [[c' H]| ->].
    - now apply processMessage_own in H.
    - apply processMessage2_own. }
  split; [exact Hown|]. split.
  - intros frame msg h order h'. apply handleBroadcast_spares.
  - intros frame h order h' Hin Hrun.
    apply list_elem_of_In in Hin. unfold hubFrames in Hin.
    apply list_elem_of_omap in Hin. destruct Hin as (e & He & Hframe).
    rewrite Forall_forall in Hown. specialize (Hown e He).
    destruct e as [m|m]; [|discriminate].
    destruct Hown as [Hid _].
    destruct (unmarshal frame) as [m'|] eqn:Hun.
    + rewrite <- Hid, <- (clientId_survives m m' frame Hframe Hun).
      eapply handleBroadcast_spares; eassumption.
    + unfold handleBroadcast in Hrun. rewrite Hun in Hrun. injection Hrun as <-.
      intros q c0 Hq _. exact Hq.
Qed.

End Wire.

(** Client aaaaaaaa sends a text update: the hub puts the frame on the queue
    of client bbbbbbbb and leaves client aaaaaaaa as it was. *)
Lemma hub_never_echoes_witness :
  exists (es : list emission) (h' : Hub),
    processMessage example_unmarshal
      (mkServiceAnswers true false "hello" 1 false "hello" 1 0)
      (example_client "aaaaaaaa") "anything" = Return (example_client "aaaaaaaa", es)
    /\ hubFrames example_marshal es = ["aaaaaaaa"]
    /\ handleBroadcast example_unmarshal example_hub [1%positive; 2%positive] "aaaaaaaa"
       = Return h'
    /\ heap h' !! 1%positive = Some (example_client "aaaaaaaa")
    /\ heap h' !! 2%positive
       = Some (with_send (example_client "bbbbbbbb") (mkChan ["aaaaaaaa"] 256 false)).
Proof.
  eexists. eexists.
  split; [reflexivity|]. split; [reflexivity|].
  split; [vm_compute; reflexivity|]. split; [|vm_compute; reflexivity].
  assert (Hcodec : forall (m m' : Message) (frame : string),
             example_marshal m = Some frame -> example_unmarshal frame = Some m' ->
             msg_ClientID m' = msg_ClientID m).
  { intros m m' frame Hm Hm'. injection Hm as <-. injection Hm' as <-. reflexivity. }
  destruct (hub_never_echoes example_marshal example_unmarshal Hcodec
              (mkServiceAnswers true false "hello" 1 false "hello" 1 0)
              (example_client "aaaaaaaa") "anything" _
              (or_introl (ex_intro _ (example_client "aaaaaaaa") eq_refl)))
    as (_ & _ & Hspares).
  eapply (Hspares "aaaaaaaa" example_hub [1%positive; 2%positive]).
  - left. reflexivity.
  - vm_compute. reflexivity.
  - vm_compute. reflexivity.
  - reflexivity.
Defined.

End HubFacts.


(** ** More about the [ot] package *)

Module OtMore.

Import GoInt GoIntFacts GoStringFacts Edit EditFacts ot OtSpec OtFacts.

Lemma Transform_converges_witness :
  converges (mkDocument "XY" 0 [] [])
    (mkOperation OpInsert 1 "A" 0 "a1" 0) (mkOperation OpDelete 1 "" 1 "b9" 0).
Proof.
  apply Transform_converges.
  - unfold valid_on, len. simpl. lia.
  - unfold valid_on, len. simpl. lia.
  - unfold len, max_int. simpl. lia.
  - unfold inside, stop. simpl. lia.
  - unfold inside. simpl. intros (H & _). discriminate H.
  - unfold engulfed, overlapping. simpl. intros ((H & _) & _). discriminate H.
Defined.

(** [Transform] only ever moves or shortens: the type, the text, the
    originator and the version of each operation come back as they went in. *)
Theorem Transform_keeps_identity (a b : Operation) :
  let a' := fst (Transform a b) in
  let b' := snd (Transform a b) in
  (op_Type a' = op_Type a /\ op_Content a' = op_Content a
   /\ op_ClientID a' = op_ClientID a /\ op_Version a' = op_Version a)
  /\ (op_Type b' = op_Type b /\ op_Content b' = op_Content b
      /\ op_ClientID b' = op_ClientID b /\ op_Version b' = op_Version b).
Proof.
  cbv zeta. unfold Transform.
  destruct (op_Type a) eqn:Ta, (op_Type b) eqn:Tb; cbn [fst snd];
    try (repeat split; assumption).
  - unfold transformInsertInsert.
    destruct (op_Position a <? op_Position b);
      [|destruct (op_Position a >? op_Position b);
        [|destruct (String.ltb (op_ClientID a) (op_ClientID b))]];
      cbn; repeat split; assumption.
  - unfold transformInsertDelete.
    destruct (op_Position a <=? op_Position b);
      [|destruct (op_Position a >=? add (op_Position b) (op_Length b))];
      cbn; repeat split; assumption.
  - unfold transformInsertDelete.
    destruct (op_Position b <=? op_Position a);
      [|destruct (op_Position b >=? add (op_Position a) (op_Length a))];
      cbn; repeat split; assumption.
  - unfold transformDeleteDelete.
    destruct (add (op_Position a) (op_Length a) <=? op_Position b);
      [|destruct (add (op_Position b) (op_Length b) <=? op_Position a);
        [|destruct (op_Position a <? op_Position b)]];
      cbn; repeat split; assumption.
Qed.

(** [Apply] does not panic on an operation whose length is not negative and
    whose end is an int: it succeeds exactly when the operation is valid on
    the content, and otherwise returns an error with the document as it
    was. *)
Theorem Apply_succeeds_iff_valid (d : Document) (op : Operation) :
  representable (Content d) ->
  0 <= op_Length op -> in_range (op_Position op + op_Length op) ->
  (valid_on (Content d) op ->
   Apply d op =
     Return (mkDocument (of_list (denote op (to_list (Content d))))
               (add (Version d) 1) (PendingOps d) (AcknowledgedOps d ++ [op]), None))
  /\ (~ valid_on (Content d) op -> exists e, Apply d op = Return (d, Some e)).
Proof.
  intros Hr Hl He. split.
  - intros Hv. now apply Apply_valid.
  - intros Hnv. apply Apply_rejected. unfold rejected, valid_on in *.
    destruct (op_Type op).
    + lia.
    + rewrite add_small by exact He. lia.
    + apply Hnv. exact I.
Qed.

Lemma Apply_succeeds_iff_valid_witness :
  exists e, Apply (mkDocument "abc" 0 [] []) (mkOperation OpDelete 2 "" 5 "a1" 0)
            = Return (mkDocument "abc" 0 [] [], Some e).
Proof.
  destruct (Apply_succeeds_iff_valid (mkDocument "abc" 0 [] [])
              (mkOperation OpDelete 2 "" 5 "a1" 0)) as [_ H].
  - unfold representable, len, max_int. simpl. lia.
  - simpl. lia.
  - unfold in_range, min_int, max_int. simpl. lia.
  - apply H. unfold valid_on, len. simpl. lia.
Defined.

Lemma cut_splice_inverse {A : Type} (p : nat) (t l : list A) :
  (p <= length l)%nat -> cut p (length t) (splice p t l) = l.
Proof.
  intros H. destruct (cut_at l p) as (a & b & -> & <-); [lia|]. clear.
  segments.
Qed.

Lemma splice_cut_inverse {A : Type} (p n : nat) (l : list A) :
  (p + n <= length l)%nat -> splice p (take n (drop p l)) (cut p n l) = l.
Proof.
  intros H.
  destruct (cut_at l p) as (a & l' & -> & <-); [lia|].
  rewrite length_app in H.
  destruct (cut_at l' n) as (b & c & -> & <-); [lia|]. clear.
  segments.
Qed.

(** An Insert followed by the Delete of what it inserted gives the content
    back, and so does a Delete followed by the Insert of what it removed. *)
Theorem inverse_operation_restores (d : Document) (p n : Z) (t : string)
    (c1 c2 : string) (v1 v2 : Z) :
  representable (Content d) ->
  (0 <= p <= len (Content d) -> len (Content d) + len t <= max_int ->
   content_after d [mkOperation OpInsert p t 0 c1 v1;
                    mkOperation OpDelete p "" (len t) c2 v2] = Some (Content d))
  /\ (0 <= p -> 0 <= n -> p + n <= len (Content d) ->
      forall removed, slice (Content d) p (p + n) = Return removed ->
      content_after d [mkOperation OpDelete p "" n c1 v1;
                       mkOperation OpInsert p removed 0 c2 v2] = Some (Content d)).
Proof.
  intros Hr. pose proof (len_to_list (Content d)) as HL. split.
  - intros Hp Hb. pose proof (len_to_list t) as Ht.
    set (ins := mkOperation OpInsert p t 0 c1 v1).
    assert (Vi : valid_on (Content d) ins) by (unfold valid_on; cbn; lia).
    pose proof (len_denote _ _ Vi) as Li. cbn [op_Type ins op_Content] in Li.
    rewrite content_after_pair; try assumption.
    + f_equal. apply to_list_inj. rewrite to_list_of_list.
      unfold denote. cbn [op_Type ins op_Position op_Content op_Length].
      replace (Z.to_nat (len t)) with (length (to_list t)) by lia.
      apply cut_splice_inverse. lia.
    + unfold valid_on. cbn [op_Type op_Position op_Length]. rewrite Li. lia.
    + unfold representable. rewrite Li. lia.
  - intros Hp Hn Hb removed Hs.
    rewrite slice_Return in Hs by lia. injection Hs as <-.
    set (del := mkOperation OpDelete p "" n c1 v1).
    assert (Vd : valid_on (Content d) del) by (unfold valid_on; cbn; lia).
    pose proof (len_denote _ _ Vd) as Ld. cbn [op_Type del op_Length] in Ld.
    rewrite content_after_pair; try assumption.
    + f_equal. apply to_list_inj. rewrite to_list_of_list.
      unfold denote. cbn [op_Type del op_Position op_Content op_Length].
      rewrite to_list_of_list.
      replace (Z.to_nat (p + n - p)) with (Z.to_nat n) by lia.
      apply splice_cut_inverse. lia.
    + unfold valid_on. cbn [op_Type op_Position]. rewrite Ld. lia.
    + unfold representable. rewrite Ld. unfold representable in Hr. lia.
Qed.

Lemma inverse_operation_restores_witness :
  content_after (mkDocument "hello" 0 [] [])
    [mkOperation OpInsert 2 "XY" 0 "a1" 0; mkOperation OpDelete 2 "" 2 "a1" 1]
  = Some "hello".
Proof.
  destruct (inverse_operation_restores (mkDocument "hello" 0 [] []) 2 0 "XY" "a1" "a1" 0 1)
    as [H _].
  - unfold representable, len, max_int. simpl. lia.
  - apply H.
    + unfold len. simpl. lia.
    + unfold len, max_int. simpl. lia.
Defined.

(** The operation [GenerateOperation] returns sits at the first index at
    which the two contents differ, or at the end of the shorter one when it
    is a prefix of the longer one; an Insert carries the bytes of the new
    content from there on, as many as the new content is longer, a Delete
    removes as many bytes as the new content is shorter, and contents of one
    length give a Retain without originator. *)
Theorem GenerateOperation_finds_first_difference (old new : string) (position : Z)
    (clientID : string) :
  representable old -> representable new ->
  exists op, GenerateOperation old new position clientID = Return op
    /\ (generated old new clientID op
        \/ (len old = len new /\ op = mkOperation OpRetain 0 "" 0 "" 0)).
Proof. apply GenerateOperation_shape. Qed.

Lemma GenerateOperation_finds_first_difference_witness :
  GenerateOperation "hello world" "help" 0 "a1"
  = Return (mkOperation OpDelete 3 "" 7 "a1" 0).
Proof.
  destruct (GenerateOperation_finds_first_difference "hello world" "help" 0 "a1")
    as (op & Hop & _).
  - unfold representable, len, max_int. simpl. lia.
  - unfold representable, len, max_int. simpl. lia.
  - rewrite Hop. vm_compute in Hop. injection Hop as <-. reflexivity.
Defined.

End OtMore.

(** ** More about the OT manager and the service record *)

Module EditorMore.

Import GoInt GoIntFacts GoStringFacts Edit EditFacts ot OtSpec OtFacts.
Import editor EditorSpec EditorFacts.

Lemma denote_with_Version op v l : denote (with_Version op v) l = denote op l.
Proof. reflexivity. Qed.

Lemma valid_on_with_Version S op v : valid_on S op -> valid_on S (with_Version op v).
Proof. intros H. exact H. Qed.

(** One call on a reachable manager, spelled out. *)
Lemma ProcessTextUpdate_reachable m clientID newContent clientVersion :
  reachable m -> representable (Content (document m)) -> representable newContent ->
  exists op,
    GenerateOperation (Content (document m)) newContent 0 clientID = Return op
    /\ valid_on (Content (document m)) op
    /\ let d' := mkDocument (of_list (denote op (to_list (Content (document m)))))
                   (add (Version (document m)) 1) (PendingOps (document m))
                   (AcknowledgedOps (document m) ++ [with_Version op clientVersion]) in
       ProcessTextUpdate m clientID newContent clientVersion =
         Return (mkOTManager d' (pendingOps m) (Content d') (documentID m),
                 (Content d', Version d', None)).
Proof.
  intros Hm Hr Hn.
  destruct (reachable_invariant m Hm) as [Hp Hl].
  destruct (GenerateOperation_shape (Content (document m)) newContent 0 clientID Hr Hn)
    as (op & Hgen & Hshape).
  assert (Hv : valid_on (Content (document m)) op).
  { destruct Hshape as [Hg|[_ ->]]; [|exact I].
    now destruct (generated_valid _ _ _ _ Hr Hn Hg). }
  exists op. split; [exact Hgen|]. split; [exact Hv|]. cbv zeta.
  rewrite ProcessTextUpdate_submitted, (ProcessTextUpdate_never_rebases _ _ _ _ Hm).
  rewrite Hl, Hgen. cbn [obind].
  rewrite (Apply_valid _ _ (valid_on_with_Version _ _ clientVersion Hv) Hr).
  cbn [obind]. rewrite denote_with_Version. reflexivity.
Qed.

(** What the generated operation does to the old content when the new one
    is a single contiguous edit of it. *)
Lemma generated_single_edit old new clientID op :
  generated old new clientID op ->
  one_insertion old new \/ one_deletion old new ->
  denote op (to_list old) = to_list new.
Proof.
  intros Hg Hedit.
  pose proof (len_to_list old) as Lo. pose proof (len_to_list new) as Ln.
  destruct Hg as (j & Hj & Hagree & Hdiff & [[Hlt ->]|[Hlt ->]]);
    unfold denote; cbn [op_Type op_Position op_Content op_Length].
  - destruct Hedit as [(A & X & B & HS & HT)|(A & X & B & HT & HS)];
      [|exfalso; rewrite HS, HT, !len_app in Hlt; pose proof (len_nonneg X); lia].
    rewrite to_list_of_list. unfold splice. rewrite Hagree.
    assert (Hk : Z.to_nat (len new - len old) = length (to_list X)).
    { rewrite HS, HT, !len_app, (len_to_list X). lia. }
    assert (Hpre : (length (to_list A) <= Z.to_nat j)%nat).
    { rewrite HS, HT, !to_list_app in *.
      apply (difference_past_prefix (to_list A) (to_list B) (to_list X ++ to_list B));
        try lia.
      intros H1 H2. apply Hdiff. lia. }
    rewrite Hk, HS, to_list_app.
    rewrite (drop_past_insert (to_list A) (to_list X) (to_list B) _ Hpre).
    rewrite <- !to_list_app, <- HT.
    rewrite <- drop_drop, take_drop, take_drop. reflexivity.
  - destruct Hedit as [(A & X & B & HS & HT)|(A & X & B & HT & HS)];
      [exfalso; rewrite HS, HT, !len_app in Hlt; pose proof (len_nonneg X); lia|].
    unfold cut. rewrite Hagree.
    assert (Hk : Z.to_nat (len old - len new) = length (to_list X)).
    { rewrite HS, HT, !len_app, (len_to_list X). lia. }
    assert (Hpre : (length (to_list A) <= Z.to_nat j)%nat).
    { rewrite HS, HT, !to_list_app in *.
      apply (difference_past_prefix (to_list A) (to_list X ++ to_list B) (to_list B));
        try lia.
      intros H1 H2. apply Hdiff. lia. }
    rewrite Hk, HS, !to_list_app.
    rewrite <- (drop_past_insert (to_list A) (to_list X) (to_list B) _ Hpre).
    rewrite <- to_list_app, <- HT. apply take_drop.
Qed.

Lemma reachable_pendingOps m : reachable m -> pendingOps m = [].
Proof.
  induction 1 as [documentID|m m' clientID newContent clientVersion results _ IH Hstep].
  - reflexivity.
  - rewrite ProcessTextUpdate_submitted in Hstep.
    destruct (submitted m clientID newContent clientVersion) as [op|]; [|discriminate].
    cbn [obind] in Hstep.
    destruct (Apply (document m) op) as [[d' [e|]]|]; cbn [obind] in Hstep;
      try discriminate; injection Hstep as <- _; exact IH.
Qed.

(** On every manager reached from [NewOTManager] the snapshot is the content
    of the document, and neither list of pending operations has an entry. *)
Theorem snapshot_follows_document (m : OTManager) :
  reachable m ->
  lastContent m = Content (document m)
  /\ PendingOps (document m) = []
  /\ pendingOps m = [].
Proof.
  intros Hm. destruct (reachable_invariant m Hm) as [Hp Hl].
  split; [exact Hl|]. split; [exact Hp|]. now apply reachable_pendingOps.
Qed.

(** The manager after one update that wrote hi. *)
Lemma reachable_after_hi :
  reachable (mkOTManager (mkDocument "hi" 1 [] [mkOperation OpInsert 0 "hi" 0 "a1" 0])
               [] "hi" "doc").
Proof.
  apply (reachable_update (NewOTManager "doc") _ "a1" "hi" 0 ("hi", 1, None)).
  - apply reachable_new.
  - reflexivity.
Defined.

Lemma snapshot_follows_document_witness :
  let m := mkOTManager (mkDocument "hi" 1 [] [mkOperation OpInsert 0 "hi" 0 "a1" 0])
             [] "hi" "doc" in
  reachable m /\ lastContent m = Content (document m).
Proof.
  cbv zeta. split; [exact reachable_after_hi|].
  now apply snapshot_follows_document, reachable_after_hi.
Defined.


(** A call of [ProcessTextUpdate] on a reachable manager never panics and
    never returns an error: the operation generated from the snapshot is
    applied as it is, with the client version on it; the version moves by
    one, and the content that comes back is the new content of the document
    and is as long as the submitted one. *)
Theorem ProcessTextUpdate_never_fails (m : OTManager) (clientID newContent : string)
    (clientVersion : Z) :
  reachable m -> representable (Content (document m)) -> representable newContent ->
  exists (m' : OTManager) (op : Operation),
    ProcessTextUpdate m clientID newContent clientVersion
      = Return (m', (Content (document m'), Version (document m'), None))
    /\ reachable m'
    /\ GenerateOperation (lastContent m) newContent 0 clientID = Return op
    /\ AcknowledgedOps (document m')
       = AcknowledgedOps (document m) ++ [with_Version op clientVersion]
    /\ Version (document m') = add (Version (document m)) 1
    /\ len (Content (document m')) = len newContent.
Proof.
  intros Hm Hr Hn.
  destruct (ProcessTextUpdate_reachable m clientID newContent clientVersion Hm Hr Hn)
    as (op & Hgen & Hv & Hrun). cbv zeta in Hrun.
  destruct (reachable_invariant m Hm) as [_ Hl].
  eexists. exists op. split; [exact Hrun|]. cbn [document Content Version AcknowledgedOps].
  split; [eapply reachable_update; [exact Hm | exact Hrun]|].
  split; [now rewrite Hl|]. split; [reflexivity|]. split; [reflexivity|].
  rewrite (len_denote _ _ Hv).
  destruct (GenerateOperation_shape (Content (document m)) newContent 0 clientID Hr Hn)
    as (op' & Hgen' & Hshape).
  rewrite Hgen in Hgen'. injection Hgen' as <-.
  destruct Hshape as [Hg|[Hlen ->]]; [|exact Hlen].
  destruct (generated_valid _ _ _ _ Hr Hn Hg) as (_ & Hins & _).
  destruct Hg as (j & _ & _ & _ & [[Hlt ->]|[Hlt ->]]); cbn [op_Type op_Length] in *.
  - destruct (Hins eq_refl) as [-> _]. lia.
  - lia.
Qed.

Lemma ProcessTextUpdate_never_fails_witness :
  exists m' : OTManager,
    ProcessTextUpdate (NewOTManager "doc") "a1" "hello" 7
      = Return (m', (Content (document m'), Version (document m'), None))
    /\ Version (document m') = 1.
Proof.
  destruct (ProcessTextUpdate_never_fails (NewOTManager "doc") "a1" "hello" 7)
    as (m' & op & Hrun & _ & _ & _ & Hv & _).
  - apply reachable_new.
  - unfold representable, len, max_int. simpl. lia.
  - unfold representable, len, max_int. simpl. lia.
  - exists m'. split; [exact Hrun|]. rewrite Hv. reflexivity.
Defined.

(** A submitted content of the same length as the document is not applied,
    whatever its bytes: the document keeps its content, a Retain goes into
    the history and the version still moves by one. *)
Theorem same_length_update_is_dropped (m : OTManager) (clientID newContent : string)
    (clientVersion : Z) :
  reachable m -> representable (Content (document m)) ->
  len newContent = len (Content (document m)) ->
  exists m' : OTManager,
    ProcessTextUpdate m clientID newContent clientVersion
      = Return (m', (Content (document m), add (Version (document m)) 1, None))
    /\ GetDocument m' = (Content (document m), add (Version (document m)) 1)
    /\ AcknowledgedOps (document m')
       = AcknowledgedOps (document m) ++ [mkOperation OpRetain 0 "" 0 "" clientVersion].
Proof.
  intros Hm Hr Hlen.
  assert (Hn : representable newContent) by (unfold representable in *; lia).
  destruct (ProcessTextUpdate_reachable m clientID newContent clientVersion Hm Hr Hn)
    as (op & Hgen & Hv & Hrun). cbv zeta in Hrun.
  destruct (GenerateOperation_shape (Content (document m)) newContent 0 clientID Hr Hn)
    as (op' & Hgen' & Hshape).
  rewrite Hgen in Hgen'. injection Hgen' as <-.
  destruct Hshape as [Hg|[_ ->]].
  - exfalso. destruct Hg as (j & _ & _ & _ & [[Hlt _]|[Hlt _]]); lia.
  - unfold denote in Hrun. cbn [op_Type Content Version] in Hrun.
    rewrite of_list_to_list in Hrun.
    eexists. split; [exact Hrun|]. split; reflexivity.
Qed.

Lemma same_length_update_is_dropped_witness :
  exists m' : OTManager,
    ProcessTextUpdate
      (mkOTManager (mkDocument "hi" 1 [] [mkOperation OpInsert 0 "hi" 0 "a1" 0])
         [] "hi" "doc") "b9" "yo" 1
    = Return (m', ("hi", 2, None)).
Proof.
  destruct (same_length_update_is_dropped _ "b9" "yo" 1 reachable_after_hi)
    as (m' & Hrun & _).
  - unfold representable, len, max_int. simpl. lia.
  - reflexivity.
  - exists m'. exact Hrun.
Defined.

(** A submitted content that is the document with one contiguous run of
    bytes inserted or deleted becomes the content of the document. *)
Theorem single_edit_update_is_applied (m : OTManager) (clientID newContent : string)
    (clientVersion : Z) :
  reachable m -> representable (Content (document m)) -> representable newContent ->
  one_insertion (Content (document m)) newContent
  \/ one_deletion (Content (document m)) newContent ->
  exists m' : OTManager,
    ProcessTextUpdate m clientID newContent clientVersion
      = Return (m', (newContent, add (Version (document m)) 1, None))
    /\ GetDocument m' = (newContent, add (Version (document m)) 1)
    /\ lastContent m' = newContent.
Proof.
  intros Hm Hr Hn Hedit.
  destruct (ProcessTextUpdate_reachable m clientID newContent clientVersion Hm Hr Hn)
    as (op & Hgen & Hv & Hrun). cbv zeta in Hrun.
  destruct (GenerateOperation_shape (Content (document m)) newContent 0 clientID Hr Hn)
    as (op' & Hgen' & Hshape).
  rewrite Hgen in Hgen'. injection Hgen' as <-.
  assert (Hcontent : of_list (denote op (to_list (Content (document m)))) = newContent).
  { destruct Hshape as [Hg|[Hlen ->]].
    - rewrite (generated_single_edit _ _ _ _ Hg Hedit). apply of_list_to_list.
    - cbn [denote op_Type]. rewrite of_list_to_list.
      destruct Hedit as [(A & X & B & HS & HT)|(A & X & B & HT & HS)];
        rewrite HS, HT, !len_app in Hlen;
        assert (X = "") as -> by (apply empty_of_len; lia);
        rewrite HS, HT; reflexivity. }
  cbn [Content Version] in Hrun. rewrite Hcontent in Hrun.
  eexists. split; [exact Hrun|]. split; reflexivity.
Qed.

Lemma single_edit_update_is_applied_witness :
  exists m' : OTManager,
    ProcessTextUpdate
      (mkOTManager (mkDocument "hi" 1 [] [mkOperation OpInsert 0 "hi" 0 "a1" 0])
         [] "hi" "doc") "b9" "hi!" 1
    = Return (m', ("hi!", 2, None)).
Proof.
  destruct (single_edit_update_is_applied _ "b9" "hi!" 1 reachable_after_hi)
    as (m' & Hrun & _).
  - unfold representable, len, max_int. simpl. lia.
  - unfold representable, len, max_int. simpl. lia.
  - left. exists "hi", "!", "". split; reflexivity.
  - exists m'. exact Hrun.
Defined.

End EditorMore.

(** ** The service record and its engine *)

Module ServiceFacts.

Import GoInt GoIntFacts GoStringFacts ot OtSpec OtFacts.
Import editor EditorSpec EditorFacts EditorMore.

Lemma ProcessTextUpdate_error_same m clientID newContent clientVersion m' results e :
  ProcessTextUpdate m clientID newContent clientVersion = Return (m', (results, Some e)) ->
  m' = m.
Proof.
  intros H. rewrite ProcessTextUpdate_submitted in H.
  destruct (submitted m clientID newContent clientVersion) as [op|]; [|discriminate].
  cbn [obind] in H.
  destruct (Apply (document m) op) as [[d' [e'|]]|] eqn:E; cbn [obind] in H;
    try discriminate.
  destruct (Apply_cases _ _ _ E) as [(e'' & E' & _)|(c & E' & _)]; [|discriminate].
  injection E' as -> _. injection H as <- _ _. apply same_manager.
Qed.

(** Once [GetDocument] has found the document, [UpdateDocument] hands no
    error to its caller: what it returns
    is the content and the version it left in the record, and the record is
    marked dirty. When the engine turned the update down, the record takes
    the client's content and counts its own version up, while the engine
    stays as it was. *)
Theorem UpdateDocument_swallows_engine_errors (doc doc' : service.Document)
    (content clientID : string) (clientVersion : Z)
    (c : string) (v : Z) (e : option error) :
  service.UpdateDocument doc content clientID clientVersion = Return (doc', (c, v, e)) ->
  e = None
  /\ service.Content doc' = c /\ service.Version doc' = v
  /\ service.dirty doc' = true /\ service.ID doc' = service.ID doc
  /\ forall m m' x y err,
       service.OTManager doc = Some m ->
       ProcessTextUpdate m clientID content clientVersion = Return (m', (x, y, Some err)) ->
       c = content /\ v = add (service.Version doc) 1
       /\ service.OTManager doc' = Some m.
Proof.
  unfold service.UpdateDocument. intros H.
  destruct (service.OTManager doc) as [m|] eqn:Hm.
  - destruct (ProcessTextUpdate m clientID content clientVersion)
      as [[m1 [[x1 y1] [err1|]]]|] eqn:Hrun; cbn [obind] in H; [| |discriminate].
    + injection H as <- <- <- <-. cbn.
      do 5 (split; [reflexivity|]).
      intros m2 m' x y err Hm2 Hrun'. injection Hm2 as <-.
      split; [reflexivity|]. split; [reflexivity|].
      f_equal. apply (ProcessTextUpdate_error_same _ _ _ _ _ _ _ Hrun).
    + injection H as <- <- <- <-. cbn.
      do 5 (split; [reflexivity|]).
      intros m2 m' x y err Hm2 Hrun'. injection Hm2 as <-.
      rewrite Hrun in Hrun'. discriminate.
  - injection H as <- <- <- <-. cbn.
    do 5 (split; [reflexivity|]).
    intros m m' x y err Hm0. discriminate.
Qed.

Lemma UpdateDocument_swallows_engine_errors_witness :
  let stale := mkOTManager NewDocument [] "abc" "doc" in
  let doc := service.mkDocument "doc" "abc" 4 (Some stale) false in
  exists doc',
    service.UpdateDocument doc "abcd" "a1" 4 = Return (doc', ("abcd", 5, None))
    /\ service.OTManager doc' = Some stale.
Proof.
  cbv zeta. eexists. split; [reflexivity|].
  eapply (UpdateDocument_swallows_engine_errors
            (service.mkDocument "doc" "abc" 4
               (Some (mkOTManager NewDocument [] "abc" "doc")) false)
            _ "abcd" "a1" 4 "abcd" 5 None).
  - reflexivity.
  - reflexivity.
  - reflexivity.
Defined.



End ServiceFacts.

(** ** The fan-out of the hub, client by client *)

Module FanOutFacts.

Import editor HubSpec FanOut HubFacts.

(** One iteration touches the client it visits and no other. *)
Lemma sendOrEvict_other docID message excludeClientID h client h' q :
  sendOrEvict docID message excludeClientID h client = Return h' ->
  q <> client -> heap h' !! q = heap h !! q.
Proof.
  unfold sendOrEvict. intros H Hq.
  destruct (heap h !! client) as [c|]; [|discriminate].
  destruct (negb (String.eqb (id c) excludeClientID)); [|now injection H as <-].
  destruct (trySend (send c) message) as [[ch|]|]; cbn [obind] in H;
    [|destruct (close (send c)) as [ch|]; cbn [obind] in H|]; try discriminate;
    injection H as <-; cbn [heap]; now rewrite lookup_insert_ne by congruence.
Qed.

(** One iteration only ever removes: from the set of clients and from the
    set of the document; the sets of other documents stay. *)
Lemma sendOrEvict_shrinks docID message excludeClientID h client h' :
  sendOrEvict docID message excludeClientID h client = Return h' ->
  clients h' ⊆ clients h
  /\ (forall S', documentClients h' !! docID = Some S' ->
      exists S, documentClients h !! docID = Some S /\ S' ⊆ S)
  /\ (forall d, d <> docID -> documentClients h' !! d = documentClients h !! d)
  /\ (is_Some (documentClients h !! docID) -> is_Some (documentClients h' !! docID)).
Proof.
  unfold sendOrEvict. intros H.
  assert (Hsame : clients h ⊆ clients h
                  /\ (forall S', documentClients h !! docID = Some S' ->
                      exists S, documentClients h !! docID = Some S /\ S' ⊆ S)
                  /\ (forall d, d <> docID -> documentClients h !! d = documentClients h !! d)
                  /\ (is_Some (documentClients h !! docID) ->
                      is_Some (documentClients h !! docID))).
  { split; [set_solver|]. split; [|split; [reflexivity|tauto]].
    intros S' HS. exists S'. split; [exact HS|set_solver]. }
  destruct (heap h !! client) as [c|]; [|discriminate].
  destruct (negb (String.eqb (id c) excludeClientID)); [|now injection H as <-].
  destruct (trySend (send c) message) as [[ch|]|]; cbn [obind] in H;
    [|destruct (close (send c)) as [ch|]; cbn [obind] in H|]; try discriminate;
    injection H as <-; cbn [clients documentClients]; [exact Hsame|].
  split; [set_solver|]. split; [|split].
  - intros S' HS. rewrite lookup_alter in HS. case_decide; [|congruence].
    destruct (documentClients h !! docID) as [S|]; [|discriminate].
    injection HS as <-. exists S. split; [reflexivity|set_solver].
  - intros d Hd. rewrite lookup_alter. case_decide; [congruence|reflexivity].
  - intros [S HS]. rewrite lookup_alter. case_decide; [|congruence].
    rewrite HS. eexists. reflexivity.
Qed.

Lemma forEach_sendOrEvict_other docID message excludeClientID order :
  forall h h' q,
    forEach (sendOrEvict docID message excludeClientID) order h = Return h' ->
    q ∉ order -> heap h' !! q = heap h !! q.
Proof.
  induction order as [|p order IH]; intros h h' q H Hq.
  - now injection H as <-.
  - cbn [forEach] in H.
    destruct (sendOrEvict docID message excludeClientID h p) as [h1|] eqn:E;
      [|discriminate]. cbn [obind] in H.
    rewrite (IH _ _ _ H) by set_solver.
    eapply sendOrEvict_other; [exact E|set_solver].
Qed.

Lemma forEach_sendOrEvict_shrinks docID message excludeClientID order :
  forall h h',
    forEach (sendOrEvict docID message excludeClientID) order h = Return h' ->
    clients h' ⊆ clients h
    /\ (forall S', documentClients h' !! docID = Some S' ->
        exists S, documentClients h !! docID = Some S /\ S' ⊆ S)
    /\ (forall d, d <> docID -> documentClients h' !! d = documentClients h !! d)
    /\ (is_Some (documentClients h !! docID) -> is_Some (documentClients h' !! docID)).
Proof.
  induction order as [|p order IH]; intros h h' H.
  - injection H as <-. split; [set_solver|]. split; [|split; [reflexivity|tauto]].
    intros S' HS. exists S'. split; [exact HS|set_solver].
  - cbn [forEach] in H.
    destruct (sendOrEvict docID message excludeClientID h p) as [h1|] eqn:E;
      [|discriminate]. cbn [obind] in H.
    destruct (sendOrEvict_shrinks _ _ _ _ _ _ E) as (C1 & D1 & O1 & I1).
    destruct (IH _ _ H) as (C2 & D2 & O2 & I2).
    split; [set_solver|]. split; [|split].
    + intros S' HS. destruct (D2 _ HS) as (S1 & HS1 & Hsub1).
      destruct (D1 _ HS1) as (S & HS0 & Hsub). exists S. split; [exact HS0|set_solver].
    + intros d Hd. now rewrite O2, O1.
    + tauto.
Qed.

(** What one iteration does to the client it visits. *)
Lemma sendOrEvict_at docID message excludeClientID h client h' c :
  sendOrEvict docID message excludeClientID h client = Return h' ->
  heap h !! client = Some c ->
  (id c = excludeClientID -> heap h' !! client = Some c)
  /\ (id c <> excludeClientID -> has_room c ->
      heap h' !! client = Some (received c message))
  /\ (id c <> excludeClientID -> ~ has_room c ->
      heap h' !! client = Some (shut c)
      /\ (client ∉ clients h')
      /\ forall S', documentClients h' !! docID = Some S' -> client ∉ S').
Proof.
  unfold sendOrEvict, has_room, received, shut. intros H Hc. rewrite Hc in H.
  destruct (String.eqb_spec (id c) excludeClientID) as [Heq|Hne]; cbn [negb] in H.
  - injection H as <-. split; [intros _; exact Hc|]. split; intros; contradiction.
  - split; [intros; contradiction|].
    unfold trySend, close in H.
    destruct (chan_closed (send c)); [discriminate|].
    destruct (Nat.ltb_spec (length (chan_buf (send c))) (chan_cap (send c))) as [Hroom|Hfull];
      cbn [obind] in H; injection H as <-; cbn [heap clients documentClients].
    + split; [intros _ _; now rewrite lookup_insert_eq|]. intros _ Hn. lia.
    + split; [intros _ Hr; lia|]. intros _ _.
      split; [now rewrite lookup_insert_eq|]. split; [set_solver|].
      intros S' HS. rewrite lookup_alter in HS. case_decide; [|congruence].
      destruct (documentClients h !! docID) as [S|]; [|discriminate].
      injection HS as <-. set_solver.
Qed.

Lemma sendOrEvict_ready docID message excludeClientID h client :
  ready h client ->
  exists h', sendOrEvict docID message excludeClientID h client = Return h'.
Proof.
  intros (c & Hc & Hopen). unfold sendOrEvict, trySend, close. rewrite Hc, Hopen.
  destruct (negb (String.eqb (id c) excludeClientID)); [|eexists; reflexivity].
  destruct (length (chan_buf (send c)) <? chan_cap (send c))%nat;
    cbn [obind]; eexists; reflexivity.
Qed.

(** When every pointer that the loop visits leads to a client with an open
    channel, and none is visited twice, the fan-out does not panic. *)
Theorem broadcastToDocument_does_not_panic (h : Hub) (order : list ptr)
    (docID message excludeClientID : string) :
  NoDup order -> (forall p, p ∈ order -> ready h p) ->
  exists h', broadcastToDocument h order docID message excludeClientID = Return h'.
Proof.
  unfold broadcastToDocument. intros Hnd Hready.
  destruct (documentClients h !! docID); [|eexists; reflexivity].
  revert h Hready. induction Hnd as [|p order Hp Hnd IH]; intros h Hready.
  - eexists. reflexivity.
  - cbn [forEach].
    destruct (sendOrEvict_ready docID message excludeClientID h p) as [h1 E];
      [apply Hready; set_solver|].
    rewrite E. cbn [obind]. apply IH. intros q Hq.
    destruct (Hready q ltac:(set_solver)) as (c & Hc & Hopen).
    exists c. split; [|exact Hopen].
    rewrite (sendOrEvict_other _ _ _ _ _ _ q E); [exact Hc|].
    intros ->. contradiction.
Qed.

Lemma broadcastToDocument_does_not_panic_witness :
  exists h', broadcastToDocument example_hub [2%positive; 1%positive] "d" "frame" "aaaaaaaa"
             = Return h'.
Proof.
  apply broadcastToDocument_does_not_panic.
  - apply NoDup_cons. split; [set_solver|]. apply NoDup_singleton.
  - intros p Hp. unfold ready, example_hub. cbn [heap].
    apply list_elem_of_In in Hp. destruct Hp as [<-|[<-|[]]].
    + eexists. split; [vm_compute; reflexivity|reflexivity].
    + eexists. split; [vm_compute; reflexivity|reflexivity].
Defined.

Lemma forEach_serves docID message excludeClientID order :
  NoDup order ->
  forall h h',
    forEach (sendOrEvict docID message excludeClientID) order h = Return h' ->
    forall p c, p ∈ order -> heap h !! p = Some c ->
    (id c = excludeClientID -> heap h' !! p = Some c)
    /\ (id c <> excludeClientID -> has_room c ->
        heap h' !! p = Some (received c message))
    /\ (id c <> excludeClientID -> ~ has_room c ->
        heap h' !! p = Some (shut c)
        /\ (p ∉ clients h')
        /\ forall S', documentClients h' !! docID = Some S' -> p ∉ S').
Proof.
  induction 1 as [|x order Hx Hnd IH]; intros h h' H p c Hp Hc; [set_solver|].
  cbn [forEach] in H.
  destruct (sendOrEvict docID message excludeClientID h x) as [h1|] eqn:E;
    [|discriminate]. cbn [obind] in H.
  destruct (decide (p = x)) as [->|Hpx].
  - destruct (sendOrEvict_at _ _ _ _ _ _ _ E Hc) as (A1 & A2 & A3).
    pose proof (forEach_sendOrEvict_other _ _ _ _ _ _ x H Hx) as Hkeep.
    destruct (forEach_sendOrEvict_shrinks _ _ _ _ _ _ H) as (C & D & _ & _).
    rewrite Hkeep. split; [exact A1|]. split; [exact A2|].
    intros Hne Hfull. destruct (A3 Hne Hfull) as (B1 & B2 & B3).
    split; [exact B1|]. split; [set_solver|].
    intros S' HS. destruct (D _ HS) as (S1 & HS1 & Hsub).
    specialize (B3 _ HS1). set_solver.
  - apply (IH _ _ H); [set_solver|].
    rewrite (sendOrEvict_other _ _ _ _ _ _ p E); [exact Hc|exact Hpx].
Qed.

(** Every client that the loop visits is served once: a client with the
    excluded identifier is left as it is; any other client with room in its
    queue has the frame at the end of its queue; a client whose queue is full
    has its channel closed and is taken out of the set of clients and out of
    the set of the document. *)
Theorem broadcastToDocument_serves_each_client (h h' : Hub) (order : list ptr)
    (docID message excludeClientID : string) (p : ptr) (c : Client) :
  broadcastToDocument h order docID message excludeClientID = Return h' ->
  is_Some (documentClients h !! docID) -> NoDup order ->
  p ∈ order -> heap h !! p = Some c ->
  (id c = excludeClientID -> heap h' !! p = Some c)
  /\ (id c <> excludeClientID -> has_room c ->
      heap h' !! p = Some (received c message))
  /\ (id c <> excludeClientID -> ~ has_room c ->
      heap h' !! p = Some (shut c)
      /\ (p ∉ clients h')
      /\ forall S', documentClients h' !! docID = Some S' -> p ∉ S').
Proof.
  unfold broadcastToDocument. intros H [S HS] Hnd Hp Hc. rewrite HS in H.
  eapply forEach_serves; eassumption.
Qed.

Lemma broadcastToDocument_serves_each_client_witness :
  exists h',
    broadcastToDocument example_hub [2%positive; 1%positive] "d" "frame" "aaaaaaaa"
      = Return h'
    /\ heap h' !! 2%positive = Some (received (example_client "bbbbbbbb") "frame").
Proof.
  eexists. split; [vm_compute; reflexivity|].
  eapply (broadcastToDocument_serves_each_client example_hub _ [2%positive; 1%positive]
            "d" "frame" "aaaaaaaa" 2%positive (example_client "bbbbbbbb")).
  - vm_compute. reflexivity.
  - eexists. vm_compute. reflexivity.
  - apply NoDup_cons. split; [set_solver|]. apply NoDup_singleton.
  - set_solver.
  - vm_compute. reflexivity.
  - discriminate.
  - unfold has_room. simpl. lia.
Defined.

(** A fan-out to one document stays inside it: clients that the loop does not
    visit keep their queues, the sets of other documents are not touched, and
    nothing is ever added to the set of clients; without an entry for the
    document nothing changes at all. *)
Theorem broadcastToDocument_isolates (h h' : Hub) (order : list ptr)
    (docID message excludeClientID : string) :
  broadcastToDocument h order docID message excludeClientID = Return h' ->
  (forall q, q ∉ order -> heap h' !! q = heap h !! q)
  /\ (forall d, d <> docID -> documentClients h' !! d = documentClients h !! d)
  /\ clients h' ⊆ clients h
  /\ (documentClients h !! docID = None -> h' = h).
Proof.
  unfold broadcastToDocument. intros H.
  destruct (documentClients h !! docID) as [S|] eqn:HS.
  - destruct (forEach_sendOrEvict_shrinks _ _ _ _ _ _ H) as (C & _ & O & _).
    split; [intros q Hq; eapply forEach_sendOrEvict_other; eassumption|].
    split; [exact O|]. split; [exact C|]. discriminate.
  - injection H as <-. split; [reflexivity|]. split; [reflexivity|].
    split; [set_solver|reflexivity].
Qed.

Lemma broadcastToDocument_isolates_witness :
  exists h',
    broadcastToDocument example_hub [2%positive] "d" "frame" "aaaaaaaa" = Return h'
    /\ heap h' !! 1%positive = heap example_hub !! 1%positive.
Proof.
  eexists. split; [vm_compute; reflexivity|].
  eapply (broadcastToDocument_isolates example_hub _ [2%positive] "d" "frame" "aaaaaaaa").
  - vm_compute. reflexivity.
  - set_solver.
Defined.

End FanOutFacts.

(** ** The cursor manager *)

Module CursorFacts.

Import cursor CursorSpec.

(** *** Entries stay under the identifier they carry *)

Lemma cleanupOne_cursors now t cm k id c :
  cursors (cleanupOne now t cm k) !! id = Some c -> cursors cm !! id = Some c.
Proof.
  unfold cleanupOne. destruct (cursors cm !! k) as [ck|]; [|auto].
  destruct (Sub now (cp_UpdatedAt ck) >? t); [|auto].
  simpl. rewrite lookup_delete_Some. tauto.
Qed.

Lemma cleanupOne_selections now t cm k id r :
  selections (cleanupOne now t cm k) !! id = Some r -> selections cm !! id = Some r.
Proof.
  unfold cleanupOne. destruct (cursors cm !! k) as [ck|]; [|auto].
  destruct (Sub now (cp_UpdatedAt ck) >? t); [|auto].
  simpl. rewrite lookup_delete_Some. tauto.
Qed.

Lemma keyed_cleanupOne now t cm k : keyed cm -> keyed (cleanupOne now t cm k).
Proof.
  intros [Hc Hs]. split; intros id x Hx.
  - eapply Hc, cleanupOne_cursors, Hx.
  - eapply Hs, cleanupOne_selections, Hx.
Qed.

Lemma keyed_CleanupStale now t order cm :
  keyed cm -> keyed (CleanupStale cm now order t).
Proof.
  unfold CleanupStale. revert cm.
  induction order as [|k order IH]; intros cm H; simpl; [assumption|].
  apply IH, keyed_cleanupOne, H.
Qed.

Lemma built_keyed cm : built cm -> keyed cm.
Proof.
  induction 1 as [|cm now id u col p _ [Hc Hs]|cm id u col s e _ [Hc Hs]
                  |cm id _ [Hc Hs]|cm now order t _ IH].
  - split; intros id x Hx; simpl in Hx; rewrite lookup_empty in Hx; discriminate.
  - split; [|exact Hs]. intros k c. simpl.
    rewrite lookup_insert_Some. intros [[<- <-]|[_ Hk]]; [reflexivity|eauto].
  - split; [unfold UpdateSelection; destruct (s =? e); exact Hc|].
    intros k r. unfold UpdateSelection. destruct (s =? e); simpl.
    + rewrite lookup_delete_Some. intros [_ Hk]. eauto.
    + rewrite lookup_insert_Some. intros [[<- <-]|[_ Hk]]; [reflexivity|eauto].
  - split; intros k x; simpl; rewrite lookup_delete_Some; intros [_ Hk]; eauto.
  - apply keyed_CleanupStale, IH.
Qed.

Lemma keep_other id ex {A} (x : option A) y :
  (if negb (String.eqb id ex) then x else None) = Some y <-> id <> ex /\ x = Some y.
Proof.
  destruct (String.eqb_spec id ex) as [->|Hne]; simpl.
  - split; [discriminate|]. intros [H _]. now destruct H.
  - tauto.
Qed.

(** *** What the others are sent *)

(** [GetAllCursors] and [GetAllSelections] return the entries of all
    clients but the excluded one: a record is returned exactly when it
    carries another identifier and is the entry stored for it. *)
Theorem presence_lists_the_others (cm : CursorManager) (exclude : string)
    (order order' : list string) :
  built cm ->
  visits order (cursors cm) -> visits order' (selections cm) ->
  (forall c, c ∈ GetAllCursors cm order exclude
             <-> cp_ClientID c <> exclude /\ cursors cm !! cp_ClientID c = Some c)
  /\ (forall r, r ∈ GetAllSelections cm order' exclude
                <-> sr_ClientID r <> exclude /\ selections cm !! sr_ClientID r = Some r).
Proof.
  intros Hb Ho Ho'. destruct (built_keyed cm Hb) as [Hc Hs].
  split; intros x; unfold GetAllCursors, GetAllSelections;
    rewrite list_elem_of_omap; split.
  - intros (id & _ & Hid). apply keep_other in Hid as [Hne Hid].
    rewrite (Hc id x Hid). auto.
  - intros [Hne Hx]. exists (cp_ClientID x). split; [apply Ho; eauto|].
    apply keep_other. auto.
  - intros (id & _ & Hid). apply keep_other in Hid as [Hne Hid].
    rewrite (Hs id x Hid). auto.
  - intros [Hne Hx]. exists (sr_ClientID x). split; [apply Ho'; eauto|].
    apply keep_other. auto.
Qed.

Lemma presence_lists_the_others_witness :
  mkCursorPosition "bob" "Bob" 7 "blue" 950
    ∈ GetAllCursors example_manager ["bob"; "ann"] "ann"
  /\ ~ mkCursorPosition "ann" "Ann" 4 "red" 100
        ∈ GetAllCursors example_manager ["bob"; "ann"] "ann".
Proof.
  assert (Hb : built example_manager) by (repeat constructor).
  assert (Ho : visits ["bob"; "ann"] (cursors example_manager)).
  { intros id [c Hc]. simpl in Hc.
    apply lookup_insert_Some in Hc as [[<- _]|[_ Hc]]; [set_solver|].
    apply lookup_insert_Some in Hc as [[<- _]|[_ Hc]]; [set_solver|].
    rewrite lookup_empty in Hc. discriminate. }
  assert (Ho' : visits ["cy"; "ann"] (selections example_manager)).
  { intros id [c Hc]. simpl in Hc.
    apply lookup_insert_Some in Hc as [[<- _]|[_ Hc]]; [set_solver|].
    apply lookup_insert_Some in Hc as [[<- _]|[_ Hc]]; [set_solver|].
    rewrite lookup_empty in Hc. discriminate. }
  destruct (presence_lists_the_others example_manager "ann" _ _ Hb Ho Ho') as [H _].
  split.
  - apply H. split; [discriminate|reflexivity].
  - intros Hin. apply H in Hin as [Hne _]. now apply Hne.
Defined.

(** After [RemoveClient] neither list holds a record of the client,
    whoever asks. *)
Theorem RemoveClient_clears_presence (cm : CursorManager) (clientID exclude : string)
    (order order' : list string) :
  built cm ->
  Forall (fun c => cp_ClientID c <> clientID)
         (GetAllCursors (RemoveClient cm clientID) order exclude)
  /\ Forall (fun r => sr_ClientID r <> clientID)
            (GetAllSelections (RemoveClient cm clientID) order' exclude).
Proof.
  intros Hb.
  destruct (built_keyed _ (built_remove cm clientID Hb)) as [Hc Hs].
  split; apply Forall_forall; intros x Hx;
    unfold GetAllCursors, GetAllSelections in Hx;
    apply list_elem_of_omap in Hx as (id & _ & Hid);
    apply keep_other in Hid as [_ Hid].
  - rewrite (Hc id x Hid). simpl in Hid.
    apply lookup_delete_Some in Hid as [Hne _]. congruence.
  - rewrite (Hs id x Hid). simpl in Hid.
    apply lookup_delete_Some in Hid as [Hne _]. congruence.
Qed.

Lemma RemoveClient_clears_presence_witness :
  Forall (fun c => cp_ClientID c <> "ann")
         (GetAllCursors (RemoveClient example_manager "ann") ["bob"; "ann"] "bob")
  /\ Forall (fun r => sr_ClientID r <> "ann")
            (GetAllSelections (RemoveClient example_manager "ann") ["cy"; "ann"] "bob").
Proof.
  apply RemoveClient_clears_presence. repeat constructor.
Defined.



(** *** Cleaning up *)

Lemma expired_stale cm now timeout id :
  expired cm now timeout id = true <-> stale cm now timeout id.
Proof.
  unfold expired, stale. destruct (cursors cm !! id) as [c|].
  - rewrite Z.gtb_ltb, Z.ltb_lt. split; [eauto|]. intros (c' & [= <-] & H). exact H.
  - split; [discriminate|]. intros (c' & [=] & _).
Qed.

Lemma cleanupOne_lookup now t cm k id :
  cursors (cleanupOne now t cm k) !! id
  = (if expired cm now t id && bool_decide (id = k) then None else cursors cm !! id)
  /\ selections (cleanupOne now t cm k) !! id
     = (if expired cm now t id && bool_decide (id = k) then None else selections cm !! id).
Proof.
  unfold cleanupOne, expired. destruct (decide (id = k)) as [->|Hne].
  - rewrite bool_decide_eq_true_2 by reflexivity. rewrite andb_true_r.
    destruct (cursors cm !! k) as [c|] eqn:Ek; [|rewrite Ek; auto].
    destruct (Sub now (cp_UpdatedAt c) >? t); simpl.
    + rewrite !lookup_delete_eq. auto.
    + rewrite Ek. auto.
  - rewrite bool_decide_eq_false_2 by assumption. rewrite andb_false_r.
    destruct (cursors cm !! k) as [c|]; [|auto].
    destruct (Sub now (cp_UpdatedAt c) >? t); simpl; [|auto].
    rewrite !lookup_delete_ne by congruence. auto.
Qed.

Lemma CleanupStale_lookup now t order cm id :
  cursors (CleanupStale cm now order t) !! id
  = (if expired cm now t id && bool_decide (id ∈ order) then None else cursors cm !! id)
  /\ selections (CleanupStale cm now order t) !! id
     = (if expired cm now t id && bool_decide (id ∈ order) then None
        else selections cm !! id).
Proof.
  unfold CleanupStale. revert cm.
  induction order as [|k order IH]; intros cm; cbn [fold_left].
  - rewrite bool_decide_eq_false_2 by set_solver. rewrite andb_false_r. auto.
  - destruct (IH (cleanupOne now t cm k)) as [IHc IHs]. rewrite IHc, IHs. clear IH IHc IHs.
    destruct (cleanupOne_lookup now t cm k id) as [Hc Hs].
    unfold expired at 1 3. rewrite Hc, Hs.
    destruct (expired cm now t id) eqn:Ex; simpl.
    + destruct (decide (id = k)) as [->|Hne].
      * rewrite (bool_decide_eq_true_2 (k = k)) by reflexivity.
        rewrite (bool_decide_eq_true_2 (k ∈ k :: order)) by set_solver. auto.
      * rewrite (bool_decide_eq_false_2 (id = k)) by assumption.
        fold (expired cm now t id). rewrite Ex. simpl.
        rewrite (bool_decide_ext (id ∈ order) (id ∈ k :: order)) by set_solver. auto.
    + fold (expired cm now t id). rewrite Ex. auto.
Qed.

(** [CleanupStale] removes the cursor and the selection of exactly the
    clients whose cursor is older than the timeout, in whatever order the
    map is visited; every other entry is left as it is, also the selection
    of a client that has no cursor. *)
Theorem CleanupStale_removes_the_stale (cm : CursorManager) (now : Time) (timeout : Z)
    (order : list string) (id : string) :
  visits order (cursors cm) ->
  let cm' := CleanupStale cm now order timeout in
  (stale cm now timeout id -> cursors cm' !! id = None /\ selections cm' !! id = None)
  /\ (~ stale cm now timeout id ->
      cursors cm' !! id = cursors cm !! id /\ selections cm' !! id = selections cm !! id).
Proof.
  intros Ho cm'. subst cm'.
  destruct (CleanupStale_lookup now timeout order cm id) as [Hc Hs].
  rewrite Hc, Hs. split.
  - intros Hst. pose proof Hst as (c & Hid & _).
    apply expired_stale in Hst. rewrite Hst.
    rewrite bool_decide_eq_true_2 by (apply Ho; eauto). auto.
  - intros Hst. destruct (expired cm now timeout id) eqn:Ex; [|auto].
    apply expired_stale in Ex. contradiction.
Qed.

Lemma CleanupStale_removes_the_stale_witness :
  let cm' := CleanupStale example_manager 1000 ["bob"; "ann"] 300 in
  (cursors cm' !! "ann" = None /\ selections cm' !! "ann" = None)
  /\ (cursors cm' !! "cy" = cursors example_manager !! "cy"
      /\ selections cm' !! "cy" = selections example_manager !! "cy").
Proof.
  assert (Ho : visits ["bob"; "ann"] (cursors example_manager)).
  { intros id [c Hc]. simpl in Hc.
    apply lookup_insert_Some in Hc as [[<- _]|[_ Hc]]; [set_solver|].
    apply lookup_insert_Some in Hc as [[<- _]|[_ Hc]]; [set_solver|].
    rewrite lookup_empty in Hc. discriminate. }
  split.
  - apply (CleanupStale_removes_the_stale example_manager 1000 300 _ "ann" Ho).
    exists (mkCursorPosition "ann" "Ann" 4 "red" 100). split; [reflexivity|].
    vm_compute. reflexivity.
  - apply (CleanupStale_removes_the_stale example_manager 1000 300 _ "cy" Ho).
    intros (c & Hc & _). vm_compute in Hc. discriminate.
Defined.

End CursorFacts.

(** ** The fan-out to every client *)

Module BroadcastAllFacts.

Import editor FanOut.

Lemma sendOrDrop_other message excludeClientID h client h' q :
  sendOrDrop message excludeClientID h client = Return h' ->
  q <> client -> heap h' !! q = heap h !! q.
Proof.
  unfold sendOrDrop. intros H Hq.
  destruct (heap h !! client) as [c|]; [|discriminate].
  destruct (negb (String.eqb (id c) excludeClientID)); [|now injection H as <-].
  destruct (trySend (send c) message) as [[ch|]|]; cbn [obind] in H;
    [|destruct (close (send c)) as [ch|]; cbn [obind] in H|]; try discriminate;
    injection H as <-; cbn [heap]; now rewrite lookup_insert_ne by congruence.
Qed.

(** One iteration never touches the per-document sets and only ever
    removes from the set of clients. *)
Lemma sendOrDrop_keeps_documents message excludeClientID h client h' :
  sendOrDrop message excludeClientID h client = Return h' ->
  documentClients h' = documentClients h /\ clients h' ⊆ clients h.
Proof.
  unfold sendOrDrop. intros H.
  destruct (heap h !! client) as [c|]; [|discriminate].
  destruct (negb (String.eqb (id c) excludeClientID));
    [|injection H as <-; split; [reflexivity|set_solver]].
  destruct (trySend (send c) message) as [[ch|]|]; cbn [obind] in H;
    [|destruct (close (send c)) as [ch|]; cbn [obind] in H|]; try discriminate;
    injection H as <-; cbn [documentClients clients]; split; try reflexivity; set_solver.
Qed.

(** A closed channel that is not excluded stops the loop when it is
    visited, and stays as it is otherwise. *)
Lemma forEach_sendOrDrop_closed message excludeClientID p c order :
  chan_closed (send c) = true -> id c <> excludeClientID ->
  forall h h',
    forEach (sendOrDrop message excludeClientID) order h = Return h' ->
    heap h !! p = Some c -> p ∉ clients h ->
    heap h' !! p = Some c /\ (p ∉ clients h')
    /\ documentClients h' = documentClients h.
Proof.
  intros Hclosed Hid. induction order as [|q order IH]; intros h h' H Hp Hout.
  - injection H as <-. auto.
  - cbn [forEach] in H.
    destruct (sendOrDrop message excludeClientID h q) as [h1|] eqn:E; [|discriminate].
    cbn [obind] in H.
    assert (Hq : p <> q).
    { intros <-. unfold sendOrDrop, trySend in E. rewrite Hp in E.
      apply String.eqb_neq in Hid. rewrite Hid, Hclosed in E. discriminate. }
    destruct (sendOrDrop_keeps_documents _ _ _ _ _ E) as [D C].
    destruct (IH h1 h' H) as (A1 & A2 & A3).
    + rewrite (sendOrDrop_other _ _ _ _ _ _ E Hq). exact Hp.
    + set_solver.
    + rewrite A3, D. auto.
Qed.

Lemma forEach_sendOrDrop_evicts message excludeClientID p c order :
  id c <> excludeClientID -> ~ has_room c ->
  forall h h',
    forEach (sendOrDrop message excludeClientID) order h = Return h' ->
    p ∈ order -> heap h !! p = Some c ->
    heap h' !! p = Some (shut c) /\ (p ∉ clients h')
    /\ documentClients h' = documentClients h.
Proof.
  intros Hid Hfull. induction order as [|q order IH]; intros h h' H Hin Hp.
  - set_solver.
  - cbn [forEach] in H.
    destruct (sendOrDrop message excludeClientID h q) as [h1|] eqn:E; [|discriminate].
    cbn [obind] in H.
    destruct (sendOrDrop_keeps_documents _ _ _ _ _ E) as [D C].
    destruct (decide (p = q)) as [<-|Hq].
    + unfold sendOrDrop, trySend, close in E. rewrite Hp in E.
      apply String.eqb_neq in Hid. rewrite Hid in E. cbn [negb] in E.
      destruct (chan_closed (send c)) eqn:Hc; [discriminate|].
      replace (length (chan_buf (send c)) <? chan_cap (send c))%nat with false in E
        by (symmetry; apply Nat.ltb_ge; unfold has_room in Hfull; lia).
      cbn [obind] in E. injection E as <-.
      destruct (forEach_sendOrDrop_closed message excludeClientID p (shut c) order)
        with (3 := H) as (A1 & A2 & A3).
      * reflexivity.
      * apply String.eqb_neq. exact Hid.
      * cbn [heap]. apply lookup_insert_eq.
      * cbn [clients]. set_solver.
      * auto.
    + destruct (IH h1 h' H) as (A1 & A2 & A3).
      * set_solver.
      * rewrite (sendOrDrop_other _ _ _ _ _ _ E Hq). exact Hp.
      * rewrite A3, D. auto.
Qed.

Lemma forEach_sendOrEvict_closed_panics docID message excludeClientID p c order :
  chan_closed (send c) = true -> id c <> excludeClientID ->
  forall h, p ∈ order -> heap h !! p = Some c ->
  forEach (sendOrEvict docID message excludeClientID) order h = Panic.
Proof.
  intros Hclosed Hid. induction order as [|q order IH]; intros h Hin Hp.
  - set_solver.
  - cbn [forEach].
    destruct (sendOrEvict docID message excludeClientID h q) as [h1|] eqn:E;
      [|reflexivity].
    cbn [obind].
    assert (Hq : p <> q).
    { intros <-. unfold sendOrEvict, trySend in E. rewrite Hp in E.
      apply String.eqb_neq in Hid. rewrite Hid, Hclosed in E. discriminate. }
    apply IH; [set_solver|].
    rewrite (FanOutFacts.sendOrEvict_other _ _ _ _ _ _ _ E Hq). exact Hp.
Qed.

(** [broadcastToAll] takes a client whose queue is full out of the set of
    clients and closes its channel, but leaves it in the set of its
    document: the next [broadcastToDocument] for that document that does not
    exclude the client sends on the closed channel and panics. *)
Theorem broadcastToAll_leaves_evicted_in_document (h h' : Hub)
    (order order' : list ptr) (message excludeClientID : string)
    (docID message' excludeClientID' : string)
    (p : ptr) (c : Client) (S : gset ptr) :
  broadcastToAll h order message excludeClientID = Return h' ->
  p ∈ order -> heap h !! p = Some c ->
  id c <> excludeClientID -> ~ has_room c ->
  documentClients h !! docID = Some S -> p ∈ S ->
  (forall q, q ∈ S -> q ∈ order') ->
  id c <> excludeClientID' ->
  heap h' !! p = Some (shut c)
  /\ (p ∉ clients h')
  /\ documentClients h' !! docID = Some S
  /\ broadcastToDocument h' order' docID message' excludeClientID' = Panic.
Proof.
  unfold broadcastToAll. intros H Hin Hp Hid Hfull HS HpS Hord Hid'.
  destruct (forEach_sendOrDrop_evicts message excludeClientID p c order Hid Hfull
              h h' H Hin Hp) as (A1 & A2 & A3).
  split; [exact A1|]. split; [exact A2|]. rewrite A3. split; [exact HS|].
  unfold broadcastToDocument. rewrite A3, HS.
  apply (forEach_sendOrEvict_closed_panics docID message' excludeClientID' p (shut c));
    auto.
Qed.

Lemma broadcastToAll_leaves_evicted_in_document_witness :
  exists h',
    broadcastToAll crowded_hub [2%positive; 1%positive] "frame" "aaaaaaaa" = Return h'
    /\ (2%positive ∉ clients h')
    /\ broadcastToDocument h' [1%positive; 2%positive] "d" "next" "aaaaaaaa" = Panic.
Proof.
  destruct (broadcastToAll crowded_hub [2%positive; 1%positive] "frame" "aaaaaaaa")
    as [h'|] eqn:E; [|vm_compute in E; discriminate].
  exists h'. split; [reflexivity|].
  destruct (broadcastToAll_leaves_evicted_in_document crowded_hub h'
              [2%positive; 1%positive] [1%positive; 2%positive] "frame" "aaaaaaaa"
              "d" "next" "aaaaaaaa" 2%positive (slow_client "bbbbbbbb")
              ({[1%positive]} ∪ {[2%positive]}))
    as (_ & A2 & _ & A4).
  - exact E.
  - set_solver.
  - vm_compute. reflexivity.
  - discriminate.
  - unfold has_room. simpl. lia.
  - reflexivity.
  - set_solver.
  - set_solver.
  - discriminate.
  - split; [exact A2|exact A4].
Defined.

End BroadcastAllFacts.
